(** * CueSynch: CSV timecodes to a BWF/WAV marker file

    A shallow embedding of the CSV reader, the timecode parser, the frame-rate
    detector, the marker extractor (main.js and its TypeScript port
    lib/csv-parser.ts) and of the WAV/BWF encoder (wav-generator.js and its
    port lib/wav-generator.ts), followed by the properties of the
    specification that were checked against them.

    Conventions of the embedding:
    - a JavaScript string is the list of its UTF-16 code units;
    - a JavaScript number is [NaN], an infinity or an exact rational: the
      rounding of binary64 arithmetic and the sign of zero are not modelled;
    - a Node.js [Buffer] is the list of its bytes; a call that throws returns
      [Err];
    - [Array.prototype.sort] is a stable insertion sort;
    - the file system, the save dialog and the system clock are inputs of the
      functions that use them; writes to the console and the import
      automation of the desktop application are left out, and so are the
      limits of the engine on memory and on the number of arguments of a
      call. *)

From Stdlib Require Import ZArith NArith QArith Qround Lia String Ascii.
From Stdlib Require Import DecimalString Sorted Qpower.
From stdpp Require Import base option list gmap.

Set Default Proof Using "Type".
Local Open Scope N_scope.

(** ** JavaScript strings *)

Abbreviation jsstring := (list N).

(** [js "abc"] is the JavaScript string with the code units of an ASCII
    literal. *)
Definition js (s : string) : jsstring :=
  map N_of_ascii (list_ascii_of_string s).

Definition QUOTE : N := 34.
Definition COMMA : N := 44.
Definition COLON : N := 58.
Definition LF : N := 10.

Module JSString.

(** WhiteSpace and LineTerminator code points of ECMAScript, the characters
    removed by [String.prototype.trim] and skipped by [parseInt] and
    [parseFloat]. *)
Definition is_whitespace (c : N) : bool :=
  ((9 <=? c) && (c <=? 13)) || (c =? 32) || (c =? 160) || (c =? 5760)
  || ((8192 <=? c) && (c <=? 8202)) || (c =? 8232) || (c =? 8233)
  || (c =? 8239) || (c =? 8287) || (c =? 12288) || (c =? 65279).

Fixpoint trimStart (s : jsstring) : jsstring :=
  match s with
  | [] => []
  | c :: r => if is_whitespace c then trimStart r else s
  end.

Fixpoint trimEnd (s : jsstring) : jsstring :=
  match s with
  | [] => []
  | c :: r =>
      match trimEnd r with
      | [] => if is_whitespace c then [] else [c]
      | r' => c :: r'
      end
  end.

(** [s.trim()] *)
Definition trim (s : jsstring) : jsstring := trimEnd (trimStart s).

(** [s.split(sep)] for a separator of one code unit. The result is never
    empty: the empty string splits into one empty part. *)
Fixpoint split (sep : N) (s : jsstring) : list jsstring :=
  match s with
  | [] => [[]]
  | c :: r =>
      if c =? sep then [] :: split sep r
      else match split sep r with
           | p :: ps => (c :: p) :: ps
           | [] => [[c]]
           end
  end.

Fixpoint startsWith (p s : jsstring) : bool :=
  match p, s with
  | [], _ => true
  | _ :: _, [] => false
  | a :: p', b :: s' => (a =? b) && startsWith p' s'
  end.

(** [s.includes(sub)] *)
Fixpoint includes (sub s : jsstring) : bool :=
  startsWith sub s
  || match s with
     | [] => false
     | _ :: r => includes sub r
     end.

(** [s.toLowerCase()] on the letters A-Z. Code units outside ASCII are left
    as they are: the program only tests the result for the ASCII words
    [time] and [name], and no character outside ASCII lower-cases to a
    sequence in which one of their letters is followed by another one. *)
Definition lower (c : N) : N :=
  if (65 <=? c) && (c <=? 90) then c + 32 else c.

Definition toLowerCase (s : jsstring) : jsstring := map lower s.

(** [s.padStart(n, fill)] for a one-character [fill]. *)
Definition padStart (n : nat) (fill : N) (s : jsstring) : jsstring :=
  replicate (n - length s) fill ++ s.

(** A string is falsy exactly when it is empty. *)
Definition truthy (s : jsstring) : bool :=
  match s with [] => false | _ => true end.

End JSString.

(** ** JavaScript numbers *)

Module JSNumber.

Inductive number :=
| NaN
| PInf                (* [Infinity] *)
| NInf                (* [-Infinity] *)
| Fin (q : Q).

Definition of_Z (z : Z) : number := Fin (inject_Z z).

Definition isNaN (a : number) : bool :=
  match a with NaN => true | _ => false end.

(** [a + b] *)
Definition add (a b : number) : number :=
  match a, b with
  | NaN, _ | _, NaN => NaN
  | PInf, NInf | NInf, PInf => NaN
  | PInf, _ | _, PInf => PInf
  | NInf, _ | _, NInf => NInf
  | Fin x, Fin y => Fin (x + y)
  end.

(** [a - b] *)
Definition sub (a b : number) : number :=
  match a, b with
  | NaN, _ | _, NaN => NaN
  | PInf, PInf | NInf, NInf => NaN
  | PInf, _ | _, NInf => PInf
  | NInf, _ | _, PInf => NInf
  | Fin x, Fin y => Fin (x - y)
  end.

(** An infinity with the sign of [q], [NaN] for zero. *)
Definition inf_of_sign (q : Q) : number :=
  match Qcompare q 0 with
  | Eq => NaN
  | Gt => PInf
  | Lt => NInf
  end.

(** [a * b] *)
Definition mul (a b : number) : number :=
  match a, b with
  | NaN, _ | _, NaN => NaN
  | Fin x, Fin y => Fin (x * y)
  | PInf, PInf | NInf, NInf => PInf
  | PInf, NInf | NInf, PInf => NInf
  | PInf, Fin y | Fin y, PInf => inf_of_sign y
  | NInf, Fin y | Fin y, NInf => inf_of_sign (- y)
  end.

(** [a / b]; a zero divisor is taken as [+0]. *)
Definition div (a b : number) : number :=
  match a, b with
  | NaN, _ | _, NaN => NaN
  | Fin x, Fin y => if Qeq_bool y 0 then inf_of_sign x else Fin (x / y)
  | Fin _, (PInf | NInf) => Fin 0
  | (PInf | NInf), (PInf | NInf) => NaN
  | PInf, Fin y => if Qle_bool 0 y then PInf else NInf
  | NInf, Fin y => if Qle_bool 0 y then NInf else PInf
  end.

(** [a < b] *)
Definition ltb (a b : number) : bool :=
  match a, b with
  | NaN, _ | _, NaN => false
  | _, NInf | PInf, _ => false
  | NInf, _ | _, PInf => true
  | Fin x, Fin y => negb (Qle_bool y x)
  end.

(** [a > b] *)
Definition gtb (a b : number) : bool := ltb b a.

(** [Math.floor(a)] and [Math.ceil(a)] *)
Definition floor (a : number) : number :=
  match a with Fin q => of_Z (Qfloor q) | _ => a end.

Definition ceil (a : number) : number :=
  match a with Fin q => of_Z (Qceiling q) | _ => a end.

(** [Math.max(...l)] *)
Definition max2 (a b : number) : number :=
  match a, b with
  | NaN, _ | _, NaN => NaN
  | _, _ => if ltb a b then b else a
  end.

Definition max (l : list number) : number := fold_left max2 l NInf.

End JSNumber.
Export JSNumber(number, NaN, PInf, NInf, Fin).

(** ** The global functions [parseInt] and [parseFloat] *)

Module JSGlobal.
Import JSString JSNumber.

(** The value of [c] as a digit of the given radix. *)
Definition digit_value (radix c : N) : option N :=
  let d := if (48 <=? c) && (c <=? 57) then Some (c - 48)
           else if (97 <=? c) && (c <=? 122) then Some (c - 87)
           else if (65 <=? c) && (c <=? 90) then Some (c - 55)
           else None in
  match d with
  | Some v => if v <? radix then Some v else None
  | None => None
  end.

(** The values of the longest prefix of [s] made of digits. *)
Fixpoint digits_prefix (radix : N) (s : jsstring) : list N :=
  match s with
  | [] => []
  | c :: r =>
      match digit_value radix c with
      | Some d => d :: digits_prefix radix r
      | None => []
      end
  end.

Definition digits_to_Z (radix : N) (ds : list N) : Z :=
  fold_left (fun acc d => acc * Z.of_N radix + Z.of_N d)%Z ds 0%Z.

(** A leading [-] or [+] is removed; the sign is [-1] for [-]. *)
Definition strip_sign (s : jsstring) : Z * jsstring :=
  match s with
  | c :: r => if c =? 45 then ((-1)%Z, r)
              else if c =? 43 then (1%Z, r) else (1%Z, s)
  | [] => (1%Z, [])
  end.

(** [parseInt(s)], no radix given: a [0x] or [0X] prefix selects base 16. *)
Definition parseInt (s : jsstring) : number :=
  let '(sign, s1) := strip_sign (trimStart s) in
  let '(radix, s2) :=
    match s1 with
    | c :: x :: r =>
        if (c =? 48) && ((x =? 120) || (x =? 88)) then (16, r) else (10, s1)
    | _ => (10, s1)
    end in
  match digits_prefix radix s2 with
  | [] => NaN
  | ds => of_Z (sign * digits_to_Z radix ds)
  end.

(** The exponent part [e] or [E], an optional sign and at least one digit;
    [0] when [s] does not start with one. *)
Definition exponent_part (s : jsstring) : Z :=
  match s with
  | c :: r =>
      if (c =? 101) || (c =? 69) then
        let '(sign, r') := strip_sign r in
        match digits_prefix 10 r' with
        | [] => 0%Z
        | ds => (sign * digits_to_Z 10 ds)%Z
        end
      else 0%Z
  | [] => 0%Z
  end.

(** [parseFloat(s)]: the longest prefix that is a StrDecimalLiteral. *)
Definition parseFloat (s : jsstring) : number :=
  let '(sign, s1) := strip_sign (trimStart s) in
  if startsWith (js "Infinity") s1 then
    if (sign <? 0)%Z then NInf else PInf
  else
    let int_ds := digits_prefix 10 s1 in
    let s2 := drop (length int_ds) s1 in
    let '(frac_ds, s3) :=
      match s2 with
      | c :: r => if c =? 46
                  then let ds := digits_prefix 10 r in
                       (ds, drop (length ds) r)
                  else ([], s2)
      | [] => ([], s2)
      end in
    match int_ds ++ frac_ds with
    | [] => NaN
    | ds =>
        let e := (exponent_part s3 - Z.of_nat (length frac_ds))%Z in
        Fin (inject_Z (sign * digits_to_Z 10 ds) * Qpower 10 e)
    end.

End JSGlobal.

(** ** Errors thrown by the modelled code *)

Inductive error :=
| CsvEmpty            (* [new Error('CSV file is empty')] *)
| TypeError           (* a method called on a value that is not a string *)
| RangeError          (* ERR_OUT_OF_RANGE of a Buffer operation *)
| SyntaxError.        (* [JSON.parse] of a malformed text *)

Inductive result (A : Type) :=
| Ok (a : A)
| Err (e : error).
Arguments Ok {A} a.
Arguments Err {A} e.

Definition bind {A B} (r : result A) (k : A -> result B) : result B :=
  match r with
  | Ok a => k a
  | Err e => Err e
  end.

Notation "x <- r ;; k" := (bind r (fun x => k))
  (at level 100, r at next level, right associativity).

(** ** JavaScript objects used as rows *)

Module JSObject.

(** The names an object literal [{}] inherits from [Object.prototype]. *)
Definition prototype_names : list jsstring :=
  [ js "constructor"; js "__defineGetter__"; js "__defineSetter__";
    js "hasOwnProperty"; js "__lookupGetter__"; js "__lookupSetter__";
    js "isPrototypeOf"; js "propertyIsEnumerable"; js "toString";
    js "valueOf"; js "__proto__"; js "toLocaleString" ].

(** What [row[key]] evaluates to. *)
Inductive value :=
| Undefined
| Str (s : jsstring)
| Inherited.          (* a function or object of [Object.prototype] *)

(** [row[key] = s] for a string [s]. Assigning a string to [__proto__]
    runs the inherited setter, which ignores anything that is not an
    object. *)
Definition set (key s : jsstring) (row : gmap jsstring jsstring)
  : gmap jsstring jsstring :=
  if decide (key = js "__proto__") then row else <[key := s]> row.

(** [row[key]] *)
Definition get (row : gmap jsstring jsstring) (key : jsstring) : value :=
  match row !! key with
  | Some s => Str s
  | None => if decide (key ∈ prototype_names) then Inherited else Undefined
  end.

End JSObject.

(** ** The CSV reader (main.js, lib/csv-parser.ts) *)

Module CsvParser.
Import JSString JSNumber JSGlobal.

(** The variables of the loop of [parseCSVLine]. *)
Record line_state := LineState {
  values : list jsstring;
  current : jsstring;
  inQuotes : bool
}.

(** One iteration of [for (let i = 0; i < line.length; i++)]. *)
Definition parseCSVLine_step (st : line_state) (char : N) : line_state :=
  if char =? QUOTE then
    LineState (values st) (current st) (negb (inQuotes st))
  else if (char =? COMMA) && negb (inQuotes st) then
    LineState (values st ++ [trim (current st)]) [] (inQuotes st)
  else
    LineState (values st) (current st ++ [char]) (inQuotes st).

Definition parseCSVLine (line : jsstring) : list jsstring :=
  let st := fold_left parseCSVLine_step line (LineState [] [] false) in
  values st ++ [trim (current st)].

(** [headers.forEach((header, index) => row[header] = values[index] || '')]
    from position [index] on. *)
Fixpoint fill_row (headers : list jsstring) (index : nat)
    (vals : list jsstring) (row : gmap jsstring jsstring)
  : gmap jsstring jsstring :=
  match headers with
  | [] => row
  | header :: rest =>
      let cell := match vals !! index with
                  | Some v => if truthy v then v else []
                  | None => []
                  end in
      fill_row rest (S index) vals (JSObject.set header cell row)
  end.

(** The body of [for (let i = 1; i < lines.length; i++)]. *)
Fixpoint parse_rows (headers : list jsstring) (lines : list jsstring)
  : list (gmap jsstring jsstring) :=
  match lines with
  | [] => []
  | l :: rest =>
      let line := trim l in
      if truthy line then
        let vals := parseCSVLine line in
        if (0 <? length vals)%nat then
          fill_row headers 0 vals ∅ :: parse_rows headers rest
        else parse_rows headers rest
      else parse_rows headers rest
  end.

Definition parseCSVWithHeaders (csvContent : jsstring)
  : result (list jsstring * list (gmap jsstring jsstring)) :=
  let lines := split LF (trim csvContent) in
  if (length lines =? 0)%nat then Err CsvEmpty
  else
    match lines with
    | [] => Err TypeError     (* [lines[0]] of an empty array *)
    | line0 :: rest =>
        let headers := parseCSVLine line0 in
        Ok (headers, parse_rows headers rest)
    end.

(** [parseTime(timeStr, frameRate)]; [None] is the [null] it returns. *)
Definition parseTime (timeStr : jsstring) (frameRate : number)
  : option number :=
  let timeStr := trim timeStr in
  if negb (includes [COLON] timeStr) then
    let seconds := parseFloat timeStr in
    if negb (isNaN seconds) then Some seconds else None
  else
    match split COLON timeStr with
    | [p0; p1] =>
        let minutes := parseInt p0 in
        let secs := parseFloat p1 in
        if negb (isNaN minutes) && negb (isNaN secs)
        then Some (add (mul minutes (of_Z 60)) secs)
        else None
    | [p0; p1; p2] =>
        let hours := parseInt p0 in
        let minutes := parseInt p1 in
        let secs := parseFloat p2 in
        if negb (isNaN hours) && negb (isNaN minutes) && negb (isNaN secs)
        then Some (add (add (mul hours (of_Z 3600)) (mul minutes (of_Z 60)))
                       secs)
        else None
    | [p0; p1; p2; p3] =>
        let hours := parseInt p0 in
        let minutes := parseInt p1 in
        let secs := parseInt p2 in
        let frames := parseInt p3 in
        if negb (isNaN hours) && negb (isNaN minutes) && negb (isNaN secs)
           && negb (isNaN frames)
        then
          let frameSeconds := div frames frameRate in
          Some (add (add (add (mul hours (of_Z 3600))
                              (mul minutes (of_Z 60))) secs) frameSeconds)
        else None
    | _ => None
    end.

(** The body of the loop of [detectFrameRate] that collects the frame
    numbers, over the lines from [startIndex] on. *)
Fixpoint collect_frames (lines : list jsstring) (frameNumbers : list number)
  : list number :=
  match lines with
  | [] => frameNumbers
  | l :: rest =>
      let line := trim l in
      if negb (truthy line) then collect_frames rest frameNumbers
      else
        match parseCSVLine line with
        | v0 :: _ =>
            match split COLON (trim v0) with
            | [_; _; _; p3] =>
                let frames := parseInt p3 in
                if negb (isNaN frames)
                then collect_frames rest (frameNumbers ++ [frames])
                else collect_frames rest frameNumbers
            | _ => collect_frames rest frameNumbers
            end
        | [] => collect_frames rest frameNumbers
        end
  end.

Definition detectFrameRate (csvContent : jsstring) : result number :=
  let lines := split LF (trim csvContent) in
  match lines with
  | [] => Err TypeError       (* [lines[0].toLowerCase()] on [undefined] *)
  | line0 :: _ =>
      let startIndex :=
        if includes (js "time") (toLowerCase line0)
           || includes (js "name") (toLowerCase line0)
        then 1%nat else 0%nat in
      let frameNumbers := collect_frames (drop startIndex lines) [] in
      if (length frameNumbers =? 0)%nat then Ok (of_Z 30)
      else
        let maxFrame := JSNumber.max frameNumbers in
        if ltb maxFrame (of_Z 24) then Ok (of_Z 24)
        else if ltb maxFrame (of_Z 25) then Ok (of_Z 25)
        else if ltb maxFrame (of_Z 30) then Ok (of_Z 30)
        else if ltb maxFrame (of_Z 50) then Ok (of_Z 50)
        else Ok (of_Z 60)
  end.

Record marker := Marker { time : number; name : jsstring }.

(** [selectedFields.map(field => row[field])
      .filter(value => value && value.trim())] *)
Fixpoint nameParts (row : gmap jsstring jsstring)
    (selectedFields : list jsstring) : result (list jsstring) :=
  match selectedFields with
  | [] => Ok []
  | field :: rest =>
      match JSObject.get row field with
      | JSObject.Undefined => nameParts row rest
      | JSObject.Inherited => Err TypeError   (* no [trim] method *)
      | JSObject.Str value =>
          parts <- nameParts row rest ;;
          Ok (if truthy value && truthy (trim value)
              then value :: parts else parts)
      end
  end.

(** [parts.join(sep)] *)
Fixpoint join (sep : jsstring) (parts : list jsstring) : jsstring :=
  match parts with
  | [] => []
  | [p] => p
  | p :: rest => p ++ sep ++ join sep rest
  end.

(** The loop [for (const row of rows)]: the markers in row order. *)
Fixpoint collect_markers (rows : list (gmap jsstring jsstring))
    (frameRate : number) (timeColumn : jsstring)
    (selectedFields : list jsstring) : result (list marker) :=
  match rows with
  | [] => Ok []
  | row :: rest =>
      match JSObject.get row timeColumn with
      | JSObject.Undefined =>
          collect_markers rest frameRate timeColumn selectedFields
      | JSObject.Inherited => Err TypeError   (* no [trim] method *)
      | JSObject.Str timeStr =>
          if negb (truthy timeStr)
          then collect_markers rest frameRate timeColumn selectedFields
          else
            match parseTime timeStr frameRate with
            | None =>
                collect_markers rest frameRate timeColumn selectedFields
            | Some t =>
                parts <- nameParts row selectedFields ;;
                let name := if (0 <? length parts)%nat
                            then join (js " - ") parts else js "Marker" in
                markers <- collect_markers rest frameRate timeColumn
                                           selectedFields ;;
                Ok (Marker t name :: markers)
            end
      end
  end.

(** [markers.sort((a, b) => a.time - b.time)]. [Array.prototype.sort] is
    stable; it is modelled by an insertion sort that keeps an element
    before the later elements its comparison does not put it after. A
    [NaN] returned by the comparison function counts as [0]. *)
Definition compareFn (a b : marker) : number := sub (time a) (time b).

Fixpoint sort_insert (x : marker) (l : list marker) : list marker :=
  match l with
  | [] => [x]
  | y :: l' => if gtb (compareFn x y) (of_Z 0)
               then y :: sort_insert x l' else x :: l
  end.

Definition sort (l : list marker) : list marker :=
  foldr sort_insert [] l.

(** The markers returned by [parseCSVWithSelectedFields]. The desktop
    variant also returns [startTimecode], the hour of the earliest marker,
    which only the import automation reads; it is added in [Main]. *)
Definition parseCSVWithSelectedFields (csvContent : jsstring)
    (frameRate : number) (timeColumn : jsstring)
    (selectedFields : list jsstring) : result (list marker) :=
  parsed <- parseCSVWithHeaders csvContent ;;
  markers <- collect_markers (snd parsed) frameRate timeColumn
                             selectedFields ;;
  Ok (sort markers).

(** The variable [earliestTime] of the desktop [parseCSVWithSelectedFields]
    after the loop, [None] for [null]: the loop updates it at every marker
    it pushes, with the test [time < earliestTime]. *)
Definition earliest_step (earliestTime : option number) (m : marker)
  : option number :=
  match earliestTime with
  | None => Some (time m)
  | Some e => if ltb (time m) e then Some (time m) else Some e
  end.

Definition earliestTime (markers : list marker) : option number :=
  fold_left earliest_step markers None.

(** [detectTimeColumn(headers)] of lib/csv-parser.ts. The loop returns the
    first header one of the keywords occurs in; [None] is the [undefined]
    that [headers[0]] is for an empty array. None of the keywords has an
    [i] that is not followed by [m], so the lower-casing of a character
    outside ASCII does not change what [includes] answers. *)
Definition timeKeywords : list jsstring :=
  [js "time"; js "timecode"; js "tc"; js "smpte"; js "timestamp"].

Fixpoint detectTimeColumn_loop (headers : list jsstring) : option jsstring :=
  match headers with
  | [] => None
  | header :: rest =>
      let headerLower := toLowerCase header in
      if existsb (fun keyword => includes keyword headerLower) timeKeywords
      then Some header
      else detectTimeColumn_loop rest
  end.

Definition detectTimeColumn (headers : list jsstring) : option jsstring :=
  match detectTimeColumn_loop headers with
  | Some header => Some header
  | None => head headers
  end.

End CsvParser.

(** ** Node.js buffers *)

Abbreviation buffer := (list N).

Module Buffer.
Import JSNumber.

(** The code points of a string: a surrogate pair is one code point, a
    lone surrogate is replaced by U+FFFD, as the UTF-8 encoder of Node.js
    does. *)
Definition is_high (c : N) : bool := (55296 <=? c) && (c <=? 56319).
Definition is_low (c : N) : bool := (56320 <=? c) && (c <=? 57343).

Fixpoint code_points (s : jsstring) : list N :=
  match s with
  | [] => []
  | c :: r =>
      if is_high c then
        match r with
        | d :: r' =>
            if is_low d
            then (65536 + (c - 55296) * 1024 + (d - 56320)) :: code_points r'
            else 65533 :: code_points r
        | [] => [65533]
        end
      else if is_low c then 65533 :: code_points r
      else c :: code_points r
  end.

Definition utf8_of_code_point (cp : N) : list N :=
  if cp <? 128 then [cp]
  else if cp <? 2048 then [192 + cp / 64; 128 + cp mod 64]
  else if cp <? 65536 then
    [224 + cp / 4096; 128 + (cp / 64) mod 64; 128 + cp mod 64]
  else
    [240 + cp / 262144; 128 + (cp / 4096) mod 64; 128 + (cp / 64) mod 64;
     128 + cp mod 64].

Definition utf8 (s : jsstring) : list N :=
  flat_map utf8_of_code_point (code_points s).

(** [Buffer.byteLength(s, 'utf8')] *)
Definition byteLength (s : jsstring) : nat := length (utf8 s).

(** The encodings of the leading code points that fit in [room] bytes: a
    character that does not fit whole is not written. *)
Fixpoint utf8_fit (room : nat) (cps : list N) : list N :=
  match cps with
  | [] => []
  | cp :: rest =>
      let bs := utf8_of_code_point cp in
      if (length bs <=? room)%nat
      then bs ++ utf8_fit (room - length bs) rest
      else []
  end.

(** [bytes] stored in [buf] from position [offset] on. *)
Definition overlay (offset : nat) (bytes : list N) (buf : buffer) : buffer :=
  take offset buf ++ bytes ++ drop (offset + length bytes) buf.

(** [Buffer.alloc(size)]: a zero-filled buffer; a size outside
    [0, kMaxLength] is refused. *)
Definition alloc (kMaxLength : Z) (size : number) : result buffer :=
  match size with
  | Fin q =>
      if Qle_bool 0 q && Qle_bool q (inject_Z kMaxLength)
      then Ok (replicate (Z.to_nat (Qfloor q)) 0)
      else Err RangeError
  | _ => Err RangeError
  end.

(** [buf.write(s, offset, length)] in UTF-8; [len = None] when the third
    argument is not given. *)
Definition write (s : jsstring) (offset : nat) (len : option nat)
    (buf : buffer) : result buffer :=
  if (length buf <? offset)%nat then Err RangeError
  else
    let remaining := (length buf - offset)%nat in
    match len with
    | None => Ok (overlay offset (utf8_fit remaining (code_points s)) buf)
    | Some n =>
        if (length buf <? n)%nat then Err RangeError
        else Ok (overlay offset
                   (utf8_fit (Nat.min n remaining) (code_points s)) buf)
    end.

(** The integer stored for [value]: its integral part, [0] for [NaN]. *)
Definition to_uint (value : number) : Z :=
  match value with
  | Fin q => Qfloor q
  | _ => 0%Z
  end.

Fixpoint le_bytes (n : nat) (v : Z) : list N :=
  match n with
  | O => []
  | S n' => Z.to_N (v mod 256) :: le_bytes n' (v / 256)
  end.

(** [value > max || value < 0], the range check of the [writeUInt]
    family; no comparison with [NaN] holds. *)
Definition out_of_range (value : number) (max : Z) : bool :=
  gtb value (of_Z max) || ltb value (of_Z 0).

Definition writeUIntLE (n : nat) (value : number) (offset : nat)
    (buf : buffer) : result buffer :=
  if out_of_range value (2 ^ (8 * Z.of_nat n) - 1) then Err RangeError
  else if (length buf <? offset + n)%nat then Err RangeError
  else Ok (overlay offset (le_bytes n (to_uint value)) buf).

Definition writeUInt8 := writeUIntLE 1.
Definition writeUInt16LE := writeUIntLE 2.
Definition writeUInt32LE := writeUIntLE 4.

(** [source.copy(target, targetStart)] *)
Definition copy (source : buffer) (targetStart : nat) (target : buffer)
  : buffer :=
  if (length target <? targetStart)%nat then target
  else overlay targetStart
         (take (length target - targetStart) source) target.

(** [buf.readUInt32LE(offset)] *)
Definition readUInt32LE (offset : nat) (buf : buffer) : option Z :=
  match drop offset buf with
  | b0 :: b1 :: b2 :: b3 :: _ =>
      Some (Z.of_N b0 + 256 * (Z.of_N b1 + 256 * (Z.of_N b2 + 256 * Z.of_N b3)))%Z
  | _ => None
  end.

End Buffer.

(** ** The WAV/BWF encoder (wav-generator.js, lib/wav-generator.ts) *)

(** The two copies of the encoder: the desktop application and its web port.
    They differ in the texts of the [bext] chunk and in where
    [createListChunk] puts the terminator of a label. *)
Inductive variant := Desktop | Web.

(** What the encoder reads from the system clock: [Date.now()] and the local
    fields of [new Date()] ([month] counts from 0, as [getMonth] does). *)
Record clock := Clock {
  now : N;
  fullYear : N;
  month : N;
  date : N;
  hours : N;
  minutes : N;
  seconds : N
}.

Module WavGenerator.
Import JSString JSNumber Buffer.
Import CsvParser(marker, time, name).

(** [String(n)] for a natural number. *)
Definition String_of_N (n : N) : jsstring :=
  js (NilEmpty.string_of_uint (N.to_uint n)).

Definition of_nat (n : nat) : number := of_Z (Z.of_nat n).

Section Encoder.
(** [buffer.constants.MAX_LENGTH] of the Node.js build. *)
Variable kMaxLength : Z.
Variable v : variant.
Variable clk : clock.

Definition createChunkHeader (id : jsstring) (size : nat) : result buffer :=
  header <- alloc kMaxLength (of_Z 8) ;;
  header <- write id 0 None header ;;
  writeUInt32LE (of_nat size) 4 header.

Definition createFmtChunk (sampleRate numChannels bitsPerSample : number)
  : result buffer :=
  chunk <- alloc kMaxLength (of_Z 16) ;;
  let blockAlign := mul numChannels (div bitsPerSample (of_Z 8)) in
  let byteRate := mul sampleRate blockAlign in
  chunk <- writeUInt16LE (of_Z 1) 0 chunk ;;
  chunk <- writeUInt16LE numChannels 2 chunk ;;
  chunk <- writeUInt32LE sampleRate 4 chunk ;;
  chunk <- writeUInt32LE byteRate 8 chunk ;;
  chunk <- writeUInt16LE blockAlign 12 chunk ;;
  writeUInt16LE bitsPerSample 14 chunk.

Definition createBextChunk : result buffer :=
  chunk <- alloc kMaxLength (of_Z 602) ;;
  let description :=
    match v with
    | Desktop => js "CueSynch - Generated marker file"
    | Web => js "CueSynch Web - Generated marker file"
    end in
  chunk <- write description 0 (Some 256%nat) chunk ;;
  let originator :=
    match v with Desktop => js "CueSynch" | Web => js "CueSynch Web" end in
  chunk <- write originator 256 (Some 32%nat) chunk ;;
  let originatorRef := js "CSV2LOGIC" ++ String_of_N (now clk) in
  chunk <- write originatorRef 288 (Some 32%nat) chunk ;;
  let originationDate :=
    String_of_N (fullYear clk) ++ [COLON]
    ++ padStart 2 48 (String_of_N (month clk + 1)) ++ [COLON]
    ++ padStart 2 48 (String_of_N (date clk)) in
  chunk <- write originationDate 320 (Some 10%nat) chunk ;;
  let originationTime :=
    padStart 2 48 (String_of_N (hours clk)) ++ [COLON]
    ++ padStart 2 48 (String_of_N (minutes clk)) ++ [COLON]
    ++ padStart 2 48 (String_of_N (seconds clk)) in
  chunk <- write originationTime 330 (Some 8%nat) chunk ;;
  let timeReferenceLow := of_Z 0 in
  let timeReferenceHigh := of_Z 0 in
  chunk <- writeUInt32LE timeReferenceLow 338 chunk ;;
  chunk <- writeUInt32LE timeReferenceHigh 342 chunk ;;
  writeUInt16LE (of_Z 2) 346 chunk.

(** The callback of [markers.forEach] in [createCueChunk], with the
    variable [offset] it advances. *)
Fixpoint cue_points (markers : list marker) (sampleRate : number)
    (index offset : nat) (chunk : buffer) : result buffer :=
  match markers with
  | [] => Ok chunk
  | marker :: rest =>
      let samplePosition := floor (mul (time marker) sampleRate) in
      chunk <- writeUInt32LE (of_nat (index + 1)) offset chunk ;;
      chunk <- writeUInt32LE samplePosition (offset + 4) chunk ;;
      chunk <- write (js "data") (offset + 8) None chunk ;;
      chunk <- writeUInt32LE (of_Z 0) (offset + 12) chunk ;;
      chunk <- writeUInt32LE (of_Z 0) (offset + 16) chunk ;;
      chunk <- writeUInt32LE samplePosition (offset + 20) chunk ;;
      cue_points rest sampleRate (S index) (offset + 24) chunk
  end.

Definition createCueChunk (markers : list marker) (sampleRate : number)
  : result buffer :=
  let numCuePoints := length markers in
  chunk <- alloc kMaxLength (of_nat (4 + numCuePoints * 24)) ;;
  chunk <- writeUInt32LE (of_nat numCuePoints) 0 chunk ;;
  cue_points markers sampleRate 0 4 chunk.

(** One [labl] sub-chunk. The desktop encoder writes the terminator at
    [12 + label.length], the web port at [12 + labelByteLength]. *)
Definition labl (marker : marker) (index : nat) : result buffer :=
  let label := name marker in
  let labelByteLength := byteLength label in
  let labelLength := (labelByteLength + 1)%nat in
  let paddedLength := (labelLength + labelLength mod 2)%nat in
  subChunk <- alloc kMaxLength (of_nat (8 + 4 + paddedLength)) ;;
  subChunk <- write (js "labl") 0 None subChunk ;;
  subChunk <- writeUInt32LE (of_nat (4 + paddedLength)) 4 subChunk ;;
  subChunk <- writeUInt32LE (of_nat (index + 1)) 8 subChunk ;;
  subChunk <- write label 12 None subChunk ;;
  let terminator :=
    match v with
    | Desktop => (12 + length label)%nat
    | Web => (12 + labelByteLength)%nat
    end in
  writeUInt8 (of_Z 0) terminator subChunk.

Fixpoint subChunks (markers : list marker) (index : nat)
  : result (list buffer) :=
  match markers with
  | [] => Ok []
  | marker :: rest =>
      subChunk <- labl marker index ;;
      more <- subChunks rest (S index) ;;
      Ok (subChunk :: more)
  end.

Definition createListChunk (markers : list marker) : result buffer :=
  chunks <- subChunks markers 0 ;;
  let subChunksBuffer := concat chunks in
  listChunk <- alloc kMaxLength (of_nat (4 + length subChunksBuffer)) ;;
  listChunk <- write (js "adtl") 0 None listChunk ;;
  Ok (copy subChunksBuffer 4 listChunk).

Definition createDataChunk (numSamples numChannels bytesPerSample : number)
  : result buffer :=
  let dataSize := mul (mul numSamples numChannels) bytesPerSample in
  alloc kMaxLength dataSize.

(** [Math.ceil(markers[markers.length - 1].time) + 1], or [10]. *)
Definition duration (markers : list marker) : number :=
  match last markers with
  | Some m => add (ceil (time m)) (of_Z 1)
  | None => of_Z 10
  end.

(** The buffer the desktop encoder writes to [outputPath] and the web
    port returns. *)
Definition generateWavWithMarkers (markers : list marker)
  : result buffer :=
  let sampleRate := of_Z 44100 in
  let numChannels := of_Z 2 in
  let bitsPerSample := of_Z 16 in
  let bytesPerSample := div bitsPerSample (of_Z 8) in
  let numSamples := mul (duration markers) sampleRate in
  fmtChunk <- createFmtChunk sampleRate numChannels bitsPerSample ;;
  bextChunk <- createBextChunk ;;
  cueChunk <- createCueChunk markers sampleRate ;;
  listChunk <- createListChunk markers ;;
  dataChunk <- createDataChunk numSamples numChannels bytesPerSample ;;
  let fileSize :=
    (4 + (8 + length fmtChunk) + (8 + length bextChunk)
     + (8 + length dataChunk) + (8 + length cueChunk)
     + (8 + length listChunk))%nat in
  riffHeader <- alloc kMaxLength (of_Z 12) ;;
  riffHeader <- write (js "RIFF") 0 None riffHeader ;;
  riffHeader <- writeUInt32LE (of_nat fileSize) 4 riffHeader ;;
  riffHeader <- write (js "WAVE") 8 None riffHeader ;;
  fmtHeader <- createChunkHeader (js "fmt ") (length fmtChunk) ;;
  bextHeader <- createChunkHeader (js "bext") (length bextChunk) ;;
  dataHeader <- createChunkHeader (js "data") (length dataChunk) ;;
  cueHeader <- createChunkHeader (js "cue ") (length cueChunk) ;;
  listHeader <- createChunkHeader (js "LIST") (length listChunk) ;;
  Ok (concat [riffHeader; fmtHeader; fmtChunk; bextHeader; bextChunk;
              dataHeader; dataChunk; cueHeader; cueChunk;
              listHeader; listChunk]).

End Encoder.

End WavGenerator.

(** ** The two callers of the encoder *)

Module Handlers.
Import JSString JSNumber CsvParser WavGenerator.

(** The [message] of a reply. *)
Inductive message :=
| MissingParameters       (* 'Missing required parameters' *)
| NoValidMarkers          (* 'No valid markers found in CSV' *)
| SaveCancelled           (* 'Save cancelled' *)
| Thrown (e : error)      (* the message of a caught error *)
| Created.                (* 'Markers file created successfully ...' *)

(** A reply and the WAV file that was produced, if any: the file written
    to the chosen path by the desktop handler, the body of the response of
    the web route. *)
Record reply := Reply {
  success : bool;
  status : N;
  message_of : message;
  wav : option buffer
}.

Definition failure (status : N) (m : message) : reply :=
  Reply false status m None.

Section Handlers.
Variable kMaxLength : Z.
Variable clk : clock.

(** [ipcMain.handle('generate-wav', ...)] of main.js. [csvContent] is
    what [fs.readFileSync] returned and [filePath] the answer of the save
    dialog, [None] when it was dismissed. The suggested file name is
    [FileName.defaultFileName]; the import automation that follows the
    write, which has no part in the reply, is not modelled; [status] is 0,
    the reply has none. *)
Definition ipc_generate_wav (csvContent : jsstring) (frameRate : number)
    (timeColumn : jsstring) (selectedFields : list jsstring)
    (filePath : option jsstring) : reply :=
  match parseCSVWithSelectedFields csvContent frameRate timeColumn
          selectedFields with
  | Err e => failure 0 (Thrown e)
  | Ok markers =>
      match filePath with
      | None => failure 0 SaveCancelled
      | Some path =>
          if negb (truthy path) then failure 0 SaveCancelled
          else
            match generateWavWithMarkers kMaxLength Desktop clk markers with
            | Err e => failure 0 (Thrown e)
            | Ok wavBuffer => Reply true 0 Created (Some wavBuffer)
            end
      end
  end.

(** [JSON.parse(selectedFieldsJson)], [None] when it throws. *)
Variable JSON_parse : jsstring -> option (list jsstring).

(** [POST] of app/api/generate-wav/route.ts. [file] is the text of the
    uploaded file; a missing form field is [None]. The name of the
    attachment is [FileName.filename]. *)
Definition POST (file : option jsstring) (frameRate : number)
    (timeColumn selectedFieldsJson : option jsstring) : reply :=
  match file, timeColumn, selectedFieldsJson with
  | Some csvContent, Some timeColumn, Some selectedFieldsJson =>
      if negb (truthy timeColumn) || negb (truthy selectedFieldsJson)
      then failure 400 MissingParameters
      else
        match JSON_parse selectedFieldsJson with
        | None => failure 500 (Thrown SyntaxError)
        | Some selectedFields =>
            match parseCSVWithSelectedFields csvContent frameRate
                    timeColumn selectedFields with
            | Err e => failure 500 (Thrown e)
            | Ok markers =>
                if (length markers =? 0)%nat
                then failure 400 NoValidMarkers
                else
                  match generateWavWithMarkers kMaxLength Web clk
                          markers with
                  | Err e => failure 500 (Thrown e)
                  | Ok wavBuffer => Reply true 200 Created (Some wavBuffer)
                  end
            end
        end
  | _, _, _ => failure 400 MissingParameters
  end.

End Handlers.

End Handlers.

(** ** Suggested file names (main.js, app/api/generate-wav/route.ts) *)

Module FileName.
Import JSString.

(** The class [[a-z0-9_\-\s]] under the flag [i]: without the flag [u] no
    character outside ASCII is folded onto an ASCII letter, and [\s] is the
    white space [trim] removes. *)
Definition is_name_char (c : N) : bool :=
  ((97 <=? c) && (c <=? 122)) || ((65 <=? c) && (c <=? 90))
  || ((48 <=? c) && (c <=? 57)) || (c =? 95) || (c =? 45) || is_whitespace c.

(** [s.replace(/[^a-z0-9_\-\s]/gi, '_')] *)
Definition replace_invalid (s : jsstring) : jsstring :=
  map (fun c => if is_name_char c then c else 95) s.

(** [s] is a point followed by one of the extensions, in any case. *)
Definition is_extension (extensions : list jsstring) (s : jsstring) : bool :=
  match s with
  | c :: r =>
      (c =? 46) && existsb (fun e => bool_decide (toLowerCase r = e)) extensions
  | [] => false
  end.

(** [s.replace(/\.(e1|e2|...)$/i, '')]: the match is looked for from the
    left, and it has to end where the string ends. *)
Fixpoint remove_extension (extensions : list jsstring) (s : jsstring)
  : jsstring :=
  match s with
  | [] => []
  | c :: r =>
      if is_extension extensions s then []
      else c :: remove_extension extensions r
  end.

Definition media_extensions : list jsstring :=
  [js "mp4"; js "mov"; js "wav"; js "aiff"; js "m4a"; js "mp3"; js "aif"].

Definition text_extensions : list jsstring := [js "csv"; js "txt"].

(** The name the desktop handler [generate-wav] proposes in the save
    dialog, before it is joined to the directory of the CSV file. An
    argument that was not passed is [None]. *)
Definition defaultFileName (fileNameField firstRowValue : option jsstring)
  : jsstring :=
  match fileNameField, firstRowValue with
  | Some fileNameField, Some firstRowValue =>
      if truthy fileNameField && truthy firstRowValue then
        let processed := remove_extension media_extensions firstRowValue in
        let sanitized := trim (replace_invalid processed) in
        if truthy sanitized then sanitized ++ js "_marker_list.wav"
        else js "Marker-list.wav"
      else js "Marker-list.wav"
  | _, _ => js "Marker-list.wav"
  end.

(** The [filename] of the attachment the web route returns, from the name
    of the uploaded file. *)
Definition filename (name : jsstring) : jsstring :=
  let originalName := remove_extension text_extensions name in
  let sanitized := trim (replace_invalid originalName) in
  if truthy sanitized then sanitized ++ js "_marker_list.wav"
  else js "marker_list.wav".

End FileName.

(** ** The start timecode of the desktop application (main.js) *)

Module Main.
Import JSString JSNumber JSGlobal CsvParser WavGenerator.

Section StartTimecode.
(** [String(z)] for an integer of [2 ^ 53] or more in absolute value, which
    the engine writes from the shortest digits that give the number back,
    with an exponent from 22 digits on. *)
Variable String_of_large : Z -> jsstring.

(** [String(a)] for a number without a fractional part. *)
Definition String_of_integer (a : number) : jsstring :=
  match a with
  | NaN => js "NaN"
  | PInf => js "Infinity"
  | NInf => js "-Infinity"
  | Fin q =>
      let z := Qfloor q in
      if (Z.abs z <? 2 ^ 53)%Z then
        if (z <? 0)%Z then 45 :: String_of_N (Z.to_N (- z))
        else String_of_N (Z.to_N z)
      else String_of_large z
  end.

(** The text typed into the dialog of Logic Pro: the hour of the earliest
    marker. *)
Definition startTimecode (earliestTime : option number) : jsstring :=
  match earliestTime with
  | None => js "00 00 00 00"
  | Some earliestTime =>
      let hours := floor (div earliestTime (of_Z 3600)) in
      let startHour := floor hours in
      padStart 2 48 (String_of_integer startHour) ++ js " 00 00 00"
  end.

(** [parseCSVWithSelectedFields] of main.js, with both fields of the object
    it returns. *)
Definition parseCSVWithSelectedFields (csvContent : jsstring)
    (frameRate : number) (timeColumn : jsstring)
    (selectedFields : list jsstring) : result (list marker * jsstring) :=
  parsed <- parseCSVWithHeaders csvContent ;;
  markers <- collect_markers (snd parsed) frameRate timeColumn
                             selectedFields ;;
  Ok (sort markers, startTimecode (earliestTime markers)).

End StartTimecode.

End Main.

(** ** The analysis of an uploaded file (main.js, app/api/analyze/route.ts) *)

Module Analysis.
Import JSString JSNumber JSGlobal CsvParser.

(** What an analysis reports. The desktop reply has no field
    [detectedTimeColumn]: it reads as [undefined] there. *)
Record analysis := Analysis {
  headers : list jsstring;
  rows : list (gmap jsstring jsstring);     (* [rows.slice(0, 5)] *)
  frameRate : number;
  detectedTimeColumn : option jsstring
}.

Inductive failure :=
| NoFileProvided                      (* status 400 *)
| Thrown (e : error).                 (* status 500 on the web *)

(** [frameRate === 'auto' ? detectFrameRate(csvContent)
                          : parseFloat(frameRate)] *)
Definition detectedFrameRate (csvContent frameRate : jsstring)
  : result number :=
  if bool_decide (frameRate = js "auto") then detectFrameRate csvContent
  else Ok (parseFloat frameRate).


(** [POST] of app/api/analyze/route.ts. [file] is the text of the uploaded
    file; a form field that is missing is [None], the [null] that
    [parseFloat] reads as the text [null]. *)
Definition POST (file frameRateParam : option jsstring)
  : analysis + failure :=
  match file with
  | None => inr NoFileProvided
  | Some csvContent =>
      match
        (detected <- detectedFrameRate csvContent
                       (default (js "null") frameRateParam) ;;
         parsed <- parseCSVWithHeaders csvContent ;;
         let timeColumn := detectTimeColumn (fst parsed) in
         Ok (Analysis (fst parsed) (take 5 (snd parsed)) detected timeColumn))
      with
      | Ok a => inl a
      | Err e => inr (Thrown e)
      end
  end.

End Analysis.

(** * Vocabulary of the properties *)

Module Spec.
Import JSString JSNumber JSGlobal CsvParser Buffer WavGenerator.

(** No field collected so far, and not the field being read, holds a
    quote. *)
Definition quote_free (st : line_state) : Prop :=
  (∀ f, f ∈ values st → QUOTE ∉ f) ∧ QUOTE ∉ current st.

(** The line ["a,b",c], whose first field is quoted. *)
Definition quoted_line : jsstring := [34; 97; 44; 98; 34; 44; 99].

(** *** Numerals *)

Definition is_digit (c : N) : bool := (48 <=? c) && (c <=? 57).

Definition is_hex_digit (c : N) : bool :=
  is_digit c || ((97 <=? c) && (c <=? 102)) || ((65 <=? c) && (c <=? 70)).

(** [s] without a leading sign. *)
Definition unsigned (s : jsstring) : jsstring :=
  match s with
  | c :: r => if (c =? 45) || (c =? 43) then r else s
  | [] => []
  end.

(** The value of a string of decimal digits. *)
Definition digits_value (ds : jsstring) : Z :=
  fold_left (λ acc c, acc * 10 + (Z.of_N c - 48))%Z ds 0%Z.

(** An integer written in full: an optional sign and one or more decimal
    digits, nothing else. *)
Definition integer_literal (s : jsstring) : option Z :=
  let ds := unsigned s in
  if truthy ds && forallb is_digit ds
  then Some (match s with
             | c :: _ =>
                 if c =? 45 then (- digits_value ds)%Z else digits_value ds
             | [] => 0%Z
             end)
  else None.

(** [s] begins, after white space and a sign, with an integer that
    [parseInt] can read: a decimal digit, or [0x] and a hexadecimal digit. *)
Definition starts_integer (s : jsstring) : bool :=
  match unsigned (trimStart s) with
  | c :: x :: r =>
      if (c =? 48) && ((x =? 120) || (x =? 88))
      then match r with d :: _ => is_hex_digit d | [] => false end
      else is_digit c
  | c :: _ => is_digit c
  | [] => false
  end.

(** [s] begins, after white space and a sign, with a decimal number that
    [parseFloat] can read: [Infinity], a digit, or a point and a digit. *)
Definition starts_decimal (s : jsstring) : bool :=
  let u := unsigned (trimStart s) in
  startsWith (js "Infinity") u
  || match u with
     | c :: r =>
         is_digit c
         || ((c =? 46) && match r with d :: _ => is_digit d | [] => false end)
     | [] => false
     end.

(** The timecode [0:0:1.5:15], whose seconds are not an integer. *)
Definition fractional_timecode : jsstring := js "0:0:1.5:15".

(** *** The order of the markers *)

(** [a <= b] on the numbers that are not [NaN]. *)
Definition le (a b : number) : Prop :=
  match a, b with
  | NaN, _ | _, NaN => False
  | NInf, _ | _, PInf => True
  | Fin x, Fin y => (x <= y)%Q
  | _, _ => False
  end.


Definition time_le (a b : marker) : Prop := le (time a) (time b).




(** The text with the given lines. *)
Definition text (lines : list jsstring) : jsstring := join [LF] lines.


(** The log of the scenario of the specification. *)
Definition scenario_csv : jsstring :=
  text [js "time,name"; js "0,Intro"; js "10.5,Verse 1"; js "1:30,Chorus";
        js "0:01:45:15,Bridge"].

(** *** Frame-rate detection *)







(** *** The layout of the encoder's output *)

(** [Math.floor(marker.time * sampleRate)] at 44100 Hz. *)
Definition samplePosition (m : marker) : number :=
  floor (mul (time m) (of_Z 44100)).

(** [writeUInt32LE] accepts the value. *)
Definition uint32 (value : number) : bool :=
  negb (out_of_range value 4294967295).

(** One record of the [cue ] chunk. *)
Definition cue_record (id : nat) (position : Z) : list N :=
  le_bytes 4 (Z.of_nat id) ++ le_bytes 4 position ++ utf8 (js "data")
  ++ le_bytes 4 0 ++ le_bytes 4 0 ++ le_bytes 4 position.

Fixpoint cue_records (index : nat) (markers : list marker) : list N :=
  match markers with
  | [] => []
  | m :: rest =>
      cue_record (index + 1) (to_uint (samplePosition m))
      ++ cue_records (S index) rest
  end.

Fixpoint cues_fit (index : nat) (markers : list marker) : bool :=
  match markers with
  | [] => true
  | m :: rest =>
      uint32 (of_nat (index + 1)) && uint32 (samplePosition m)
      && cues_fit (S index) rest
  end.

(** The size of a label with its terminator, padded to an even length. *)
Definition paddedLength (label : jsstring) : nat :=
  let labelLength := (byteLength label + 1)%nat in
  (labelLength + labelLength mod 2)%nat.

(** The tag, the size and the cue ID of a [labl] sub-chunk. *)
Definition labl_header (id : nat) (label : jsstring) : list N :=
  utf8 (js "labl") ++ le_bytes 4 (Z.of_nat (4 + paddedLength label))
  ++ le_bytes 4 (Z.of_nat id).

(** The UTF-8 bytes of a label, its terminator and the padding that makes
    the length even. *)
Definition labl_text (label : jsstring) : list N :=
  utf8 label ++ replicate (paddedLength label - byteLength label) 0.

(** Where [createListChunk] stores the terminator, counted from the first
    byte of the label. *)
Definition terminator_index (v : variant) (label : jsstring) : nat :=
  match v with
  | Desktop => length label
  | Web => byteLength label
  end.

Definition labl_fits (kMaxLength : Z) (index : nat) (label : jsstring)
  : bool :=
  (Z.of_nat (8 + 4 + paddedLength label) <=? kMaxLength)%Z
  && uint32 (of_nat (4 + paddedLength label))
  && uint32 (of_nat (index + 1)).

(** One [labl] sub-chunk as the encoder builds it. *)
Definition labl_chunk (v : variant) (id : nat) (label : jsstring) : list N :=
  labl_header id label ++ <[terminator_index v label := 0]> (labl_text label).

Fixpoint labl_chunks (v : variant) (index : nat) (markers : list marker)
  : list (list N) :=
  match markers with
  | [] => []
  | m :: rest =>
      labl_chunk v (index + 1) (name m) :: labl_chunks v (S index) rest
  end.

Fixpoint labls_fit (kMaxLength : Z) (index : nat) (markers : list marker)
  : bool :=
  match markers with
  | [] => true
  | m :: rest =>
      labl_fits kMaxLength index (name m)
      && labls_fit kMaxLength (S index) rest
  end.

(** The payload of the [LIST] chunk. *)
Definition list_payload (v : variant) (markers : list marker) : list N :=
  utf8 (js "adtl") ++ concat (labl_chunks v 0 markers).

(** The payload of the [cue ] chunk. *)
Definition cue_payload (markers : list marker) : list N :=
  le_bytes 4 (Z.of_nat (length markers)) ++ cue_records 0 markers.

(** The payload of the [fmt ] chunk: PCM, 2 channels, 44100 Hz, 176400
    bytes per second, 4 bytes per block, 16 bits per sample. *)
Definition fmt_payload : list N :=
  [1; 0; 2; 0; 68; 172; 0; 0; 16; 177; 2; 0; 4; 0; 16; 0].

(** The whole seconds of silence in the [data] chunk, when the offset of
    the last marker is finite. *)
Definition duration_seconds (markers : list marker) : option Z :=
  match last markers with
  | None => Some 10%Z
  | Some m =>
      match time m with
      | Fin q => Some (Qceiling q + 1)%Z
      | _ => None
      end
  end.

(** The eight bytes in front of a chunk. *)
Definition chunk_header (id : jsstring) (size : nat) : list N :=
  utf8 id ++ le_bytes 4 (Z.of_nat size).

(** The twelve bytes at the start of the file. *)
Definition riff_header (fileSize : nat) : list N :=
  utf8 (js "RIFF") ++ le_bytes 4 (Z.of_nat fileSize) ++ utf8 (js "WAVE").

(** The chunks of a RIFF file from [bytes] on, identifier and payload, as a
    reader that follows the declared sizes finds them. *)
Fixpoint riff_chunks (fuel : nat) (bytes : list N)
  : list (list N * list N) :=
  match fuel with
  | O => []
  | S fuel' =>
      match bytes with
      | a :: b :: c :: d :: rest =>
          match readUInt32LE 0 rest with
          | Some size =>
              ([a; b; c; d], take (Z.to_nat size) (drop 4 rest))
              :: riff_chunks fuel' (drop (4 + Z.to_nat size) rest)
          | None => []
          end
      | _ => []
      end
  end.

(** The chunks of a WAV file, after its twelve-byte header. *)
Definition chunks_of (file : list N) : list (list N * list N) :=
  riff_chunks (length file) (drop 12 file).

(** The payload of the first chunk with the given identifier. *)
Fixpoint lookup_chunk (id : list N) (chunks : list (list N * list N))
  : option (list N) :=
  match chunks with
  | [] => None
  | (i, payload) :: rest =>
      if decide (i = id) then Some payload else lookup_chunk id rest
  end.

Definition find_chunk (id : jsstring) (file : list N) : option (list N) :=
  lookup_chunk (utf8 id) (chunks_of file).

(** The payload of the [bext] chunk: what [createBextChunk] builds when the
    allocation succeeds. *)
Definition bext_payload (v : variant) (clk : clock) : list N :=
  match createBextChunk 602 v clk with
  | Ok chunk => chunk
  | Err _ => []
  end.

(** The size in bytes of the silence, [-1] when the last offset is not
    finite. *)
Definition data_size (markers : list marker) : Z :=
  match duration_seconds markers with
  | Some d => (d * 176400)%Z
  | None => (-1)%Z
  end.

Definition data_payload (markers : list marker) : list N :=
  replicate (Z.to_nat (data_size markers)) 0.

(** The value of the size field of the RIFF header. *)
Definition file_size (fmt bext data cue lst : list N) : nat :=
  (4 + (8 + length fmt) + (8 + length bext) + (8 + length data)
   + (8 + length cue) + (8 + length lst))%nat.

(** The file: the RIFF header and the five chunks, each behind its
    header. *)
Definition wav_file (fmt bext data cue lst : list N) : list N :=
  riff_header (file_size fmt bext data cue lst)
  ++ chunk_header (js "fmt ") (length fmt) ++ fmt
  ++ chunk_header (js "bext") (length bext) ++ bext
  ++ chunk_header (js "data") (length data) ++ data
  ++ chunk_header (js "cue ") (length cue) ++ cue
  ++ chunk_header (js "LIST") (length lst) ++ lst.

(** The size field of the RIFF header, computed from the markers. *)
Definition wav_size (v : variant) (markers : list marker) : Z :=
  (4 + (8 + 16) + (8 + 602) + (8 + data_size markers)
   + (8 + Z.of_nat (4 + length markers * 24))
   + (8 + Z.of_nat (length (list_payload v markers))))%Z.

(** The marker list can be encoded: every buffer can be allocated and every
    number stored fits its field. *)
Definition encodable (kMaxLength : Z) (v : variant) (markers : list marker)
  : bool :=
  (602 <=? kMaxLength)%Z
  && (Z.of_nat (4 + length markers * 24) <=? kMaxLength)%Z
  && uint32 (of_nat (length markers))
  && cues_fit 0 markers
  && labls_fit kMaxLength 0 markers
  && (Z.of_nat (length (list_payload v markers)) <=? kMaxLength)%Z
  && (0 <=? data_size markers)%Z
  && (data_size markers <=? kMaxLength)%Z
  && (wav_size v markers <=? 4294967295)%Z.

(** The sample position of the [i]-th record of a [cue ] payload. *)
Definition cue_position (i : nat) (cue : list N) : option Z :=
  readUInt32LE (4 + 24 * i + 4) cue.

(** The markers of the scenario of the specification, at 0, 10.5, 90 and
    105.5 seconds, as [parseCSVWithSelectedFields] returns them. *)
Definition scenario_markers : list marker :=
  [ Marker (Fin (0 # 1)) (js "Intro");
    Marker (Fin (105 # 10)) (js "Verse 1");
    Marker (Fin (90 # 1)) (js "Chorus");
    Marker (Fin (3165 # 30)) (js "Bridge") ].

(** A log whose only row has a time cell that is not a time. *)
Definition unparsable_csv : jsstring :=
  text [js "time,name"; js "abc,Intro"].

(** The label whose characters are all outside ASCII but two spaces:
    A-ring, A-diaeresis and O-diaeresis. *)
Definition swedish_label : jsstring := [197; 32; 196; 32; 214].

(** *** Fields of a line *)

(** The number of double quotes in [s]. *)
Definition quotes (s : jsstring) : nat := length (filter (λ c, c = QUOTE) s).

(** The fields [parseCSVLine] returns once its loop has ended in [st]. *)
Definition fields_of (st : line_state) : list jsstring :=
  values st ++ [trim (current st)].

(** [cur] put in front of the first of the parts. *)
Definition prepend (cur : jsstring) (parts : list jsstring) : list jsstring :=
  match parts with
  | p :: ps => (cur ++ p) :: ps
  | [] => [cur]
  end.

(** *** Rows *)

(** The line is not blank. *)
Definition filled (l : jsstring) : Prop := truthy (trim l) = true.

(** The field at position [j], the empty string when the line is too
    short. *)
Definition cell (vals : list jsstring) (j : nat) : jsstring :=
  default [] (vals !! j).

(** [row] has, under every header that is not repeated further right, the
    field of the line at the position of the header. *)
Definition row_of (headers : list jsstring) (l : jsstring)
    (row : gmap jsstring jsstring) : Prop :=
  ∀ j h, headers !! j = Some h → h ≠ js "__proto__" →
         h ∉ drop (S j) headers →
         row !! h = Some (cell (parseCSVLine (trim l)) j).

(** *** Decimal numbers *)



(** The number of colons in [s]. *)
Definition colons (s : jsstring) : nat :=
  length (filter (λ c, c = COLON) s).

(** *** The time column *)

(** One of [time], [tc] and [smpte] occurs in the header, in any case. *)
Definition names_time (header : jsstring) : bool :=
  includes (js "time") (toLowerCase header)
  || includes (js "tc") (toLowerCase header)
  || includes (js "smpte") (toLowerCase header).

(** *** The start timecode *)



(** *** The [bext] chunk *)

(** The texts [createBextChunk] writes. *)
Definition description (v : variant) : jsstring :=
  match v with
  | Desktop => js "CueSynch - Generated marker file"
  | Web => js "CueSynch Web - Generated marker file"
  end.

Definition originator (v : variant) : jsstring :=
  match v with Desktop => js "CueSynch" | Web => js "CueSynch Web" end.

Definition originatorRef (clk : clock) : jsstring :=
  js "CSV2LOGIC" ++ String_of_N (now clk).

Definition originationDate (clk : clock) : jsstring :=
  String_of_N (fullYear clk) ++ [COLON]
  ++ padStart 2 48 (String_of_N (month clk + 1)) ++ [COLON]
  ++ padStart 2 48 (String_of_N (date clk)).

Definition originationTime (clk : clock) : jsstring :=
  padStart 2 48 (String_of_N (hours clk)) ++ [COLON]
  ++ padStart 2 48 (String_of_N (minutes clk)) ++ [COLON]
  ++ padStart 2 48 (String_of_N (seconds clk)).

(** A text field of [n] bytes: the characters of [s] that fit whole, in
    UTF-8, then zeros. *)
Definition field (n : nat) (s : jsstring) : list N :=
  let bs := utf8_fit n (code_points s) in
  bs ++ replicate (n - length bs) 0.

(** The fields of the [bext] chunk: Description, Originator,
    OriginatorReference, OriginationDate, OriginationTime, TimeReference,
    Version, and the 254 bytes of UMID, loudness values, reserved bytes and
    coding history. *)
Definition bext_fields (v : variant) (clk : clock) : list N :=
  field 256 (description v) ++ field 32 (originator v)
  ++ field 32 (originatorRef clk) ++ field 10 (originationDate clk)
  ++ field 8 (originationTime clk)
  ++ replicate 8 0 ++ [2; 0] ++ replicate 254 0.

(** *** Labels *)

(** The text of a [labl] sub-chunk as [createListChunk] leaves it. *)
Definition stored_text (v : variant) (label : jsstring) : list N :=
  <[terminator_index v label := 0]> (labl_text label).

(** The [labl] sub-chunks a reader finds in the [LIST] chunk: tag and
    payload, the cue ID followed by the text. *)
Fixpoint labl_subchunks (v : variant) (index : nat) (markers : list marker)
  : list (list N * list N) :=
  match markers with
  | [] => []
  | m :: rest =>
      (utf8 (js "labl"),
       le_bytes 4 (Z.of_nat (index + 1)) ++ stored_text v (name m))
      :: labl_subchunks v (S index) rest
  end.

(** The bytes before the first zero byte: the text a reader of a
    zero-terminated string gets. *)
Fixpoint c_string (bytes : list N) : list N :=
  match bytes with
  | [] => []
  | b :: rest => if b =? 0 then [] else b :: c_string rest
  end.

End Spec.

(** * Properties *)

(** Case analysis on the comparisons of code units in the goal. *)
Ltac case_compare :=
  repeat (match goal with
          | |- context [N.leb ?a ?b] => destruct (N.leb_spec a b)
          | |- context [N.ltb ?a ?b] => destruct (N.ltb_spec a b)
          end;
          cbn [andb orb negb]; cbv beta iota).

(** Evaluation of a store into a buffer whose shape is known. *)
Ltac store_cbn :=
  cbn [Buffer.overlay Buffer.le_bytes firstn skipn length Nat.add app
       replicate bind].

(** ** Strings *)

Section StringFacts.
Import JSString.
Implicit Types (c sep : N) (s : jsstring).

Lemma trimStart_elem (c : N) (s : jsstring) : c ∈ trimStart s → c ∈ s.
Proof.
  induction s as [|d s IH]; simpl; [done|].
  destruct (is_whitespace d); [|done].
  intros H. right. by apply IH.
Qed.

Lemma trimEnd_elem (c : N) (s : jsstring) : c ∈ trimEnd s → c ∈ s.
Proof.
  induction s as [|d s IH]; simpl; [done|].
  destruct (trimEnd s) as [|e r] eqn:E.
  - destruct (is_whitespace d); [by intros ?%elem_of_nil|].
    intros ->%list_elem_of_singleton. by left.
  - intros [->|H]%elem_of_cons; [by left|]. right. by apply IH.
Qed.

Lemma trim_elem (c : N) (s : jsstring) : c ∈ trim s → c ∈ s.
Proof. intros H. by apply trimStart_elem, trimEnd_elem. Qed.

Lemma split_not_nil (sep : N) (s : jsstring) : split sep s ≠ [].
Proof.
  destruct s as [|c r]; simpl; [done|].
  destruct (c =? sep); [done|]. by destruct (split sep r).
Qed.

Lemma includes_singleton (c : N) (s : jsstring) :
  includes [c] s = true ↔ c ∈ s.
Proof.
  induction s as [|d s IH]; cbn [includes startsWith].
  - split; [done|by intros ?%elem_of_nil].
  - rewrite andb_true_r, orb_true_iff, IH, elem_of_cons, N.eqb_eq. done.
Qed.

Lemma includes_singleton_false (c : N) (s : jsstring) :
  includes [c] s = false ↔ c ∉ s.
Proof. rewrite <- includes_singleton. by destruct (includes [c] s). Qed.

Lemma split_no_sep (sep : N) (s : jsstring) : sep ∉ s → split sep s = [s].
Proof.
  induction s as [|c s IH]; [done|]. intros H. cbn [split].
  destruct (N.eqb_spec c sep) as [->|Hne]; [by destruct H; left|].
  rewrite IH; [done|]. intros ?. apply H. by right.
Qed.


Lemma trimStart_id (c : N) (s : jsstring) :
  is_whitespace c = false → trimStart (c :: s) = c :: s.
Proof. intros H. cbn [trimStart]. by rewrite H. Qed.


End StringFacts.

(** ** The CSV reader *)

Section CsvFacts.
Import JSString CsvParser Spec.

Lemma parseCSVLine_step_quote_free (st : line_state) (char : N) :
  quote_free st → quote_free (parseCSVLine_step st char).
Proof.
  intros [Hv Hc]. unfold parseCSVLine_step.
  destruct (char =? QUOTE) eqn:Eq; [done|].
  apply N.eqb_neq in Eq.
  destruct ((char =? COMMA) && negb (inQuotes st)); split; simpl.
  - intros f [H| ->%list_elem_of_singleton]%elem_of_app; [by apply Hv|].
    intros H%trim_elem. done.
  - by intros ?%elem_of_nil.
  - done.
  - intros [H|H%list_elem_of_singleton]%elem_of_app; [done|congruence].
Qed.

Lemma fold_parseCSVLine_step_quote_free (line : jsstring) (st : line_state) :
  quote_free st → quote_free (fold_left parseCSVLine_step line st).
Proof.
  revert st. induction line as [|c line IH]; intros st H; simpl; [done|].
  by apply IH, parseCSVLine_step_quote_free.
Qed.

End CsvFacts.

(** C5, as the code has it: a double quote flips [inQuotes] and is added to
    no field, so no field returned by [parseCSVLine] contains a double-quote
    character. *)
Theorem parseCSVLine_fields_quote_free (line field : jsstring) :
  (∀ st, CsvParser.parseCSVLine_step st QUOTE
         = CsvParser.LineState (CsvParser.values st) (CsvParser.current st)
             (negb (CsvParser.inQuotes st)))
  ∧ (field ∈ CsvParser.parseCSVLine line → QUOTE ∉ field).
Proof.
  split; [done|]. unfold CsvParser.parseCSVLine.
  pose proof (fold_parseCSVLine_step_quote_free line
                (CsvParser.LineState [] [] false)) as [Hv Hc].
  { split; simpl; [by intros f ?%elem_of_nil | by intros ?%elem_of_nil]. }
  intros [H| ->%list_elem_of_singleton]%elem_of_app; [by apply Hv|].
  by intros ?%trim_elem.
Qed.

Lemma parseCSVLine_fields_quote_free_witness :
  js "a,b" ∈ CsvParser.parseCSVLine Spec.quoted_line ∧ QUOTE ∉ js "a,b".
Proof.
  assert (H : js "a,b" ∈ CsvParser.parseCSVLine Spec.quoted_line)
    by (vm_compute; left).
  split; [exact H|].
  exact (proj2 (parseCSVLine_fields_quote_free Spec.quoted_line (js "a,b")) H).
Defined.

(** C5, as the specification states it, fails: the line ["a,b",c] contains
    two double quotes and none of them is in a parsed field. *)
Lemma parseCSVLine_keeps_quotes_counterexample :
  QUOTE ∈ Spec.quoted_line
  ∧ CsvParser.parseCSVLine Spec.quoted_line = [js "a,b"; js "c"]
  ∧ ¬ (∃ field, field ∈ CsvParser.parseCSVLine Spec.quoted_line
                ∧ QUOTE ∈ field).
Proof.
  split; [by left|]. split; [done|].
  change (CsvParser.parseCSVLine Spec.quoted_line)
    with [[97; 44; 98]; [99]].
  intros (field & Hfield & Hquote).
  apply list_elem_of_In in Hfield. unfold QUOTE in Hquote.
  destruct Hfield as [<-|[<-|[]]];
    repeat (apply elem_of_cons in Hquote as [Hquote|Hquote]; [done|]);
    by apply elem_of_nil in Hquote.
Qed.


(** C3, on the code: an input whose trimmed text is empty is not refused.
    [split] returns the single line [""], the test [lines.length === 0]
    never holds, and the result has the one header [""] and no rows. *)
Theorem parseCSVWithHeaders_empty_input (csvContent : jsstring) :
  JSString.trim csvContent = [] →
  CsvParser.parseCSVWithHeaders csvContent = Ok ([[]], []).
Proof. unfold CsvParser.parseCSVWithHeaders. by intros ->. Qed.

Lemma parseCSVWithHeaders_empty_input_witness :
  CsvParser.parseCSVWithHeaders (js "  ") = Ok ([[]], []).
Proof. apply (parseCSVWithHeaders_empty_input (js "  ")). reflexivity. Defined.

(** ** Numbers *)

Section NumberFacts.
Import JSNumber.

Lemma Qle_bool_inject_Z (a b : Z) :
  Qle_bool (inject_Z a) (inject_Z b) = (a <=? b)%Z.
Proof.
  apply eq_true_iff_eq. rewrite Qle_bool_iff, <- Zle_Qle, Z.leb_le. done.
Qed.

Lemma ltb_of_Z (a b : Z) : ltb (of_Z a) (of_Z b) = (a <? b)%Z.
Proof.
  unfold ltb, of_Z. rewrite Qle_bool_inject_Z.
  destruct (Z.leb_spec b a), (Z.ltb_spec a b); simpl; lia || done.
Qed.




End NumberFacts.

(** ** The frame-rate detector *)

Section DetectFacts.
Import JSString JSNumber JSGlobal CsvParser Spec.






End DetectFacts.


(** ** The timecode parser *)

Section ParseFacts.
Import JSString JSNumber JSGlobal CsvParser Spec.

Lemma strip_sign_unsigned (s : jsstring) : (strip_sign s).2 = unsigned s.
Proof.
  destruct s as [|c r]; [done|]. unfold strip_sign, unsigned.
  destruct (c =? 45); [done|]. by destruct (c =? 43).
Qed.

Lemma digit_value_10 (c : N) :
  digit_value 10 c = if is_digit c then Some (c - 48) else None.
Proof. unfold digit_value, is_digit. case_compare; done || lia. Qed.

Lemma digit_value_16 (c : N) :
  is_Some (digit_value 16 c) ↔ is_hex_digit c = true.
Proof.
  unfold digit_value, is_hex_digit, is_digit. case_compare;
    (split; [intros [v Hv]|intros Hv]); try done; try lia; eauto.
Qed.

Lemma digits_prefix_10_head (c : N) (r : jsstring) :
  match digits_prefix 10 (c :: r) with [] => true | _ => false end
  = negb (is_digit c).
Proof. cbn [digits_prefix]. rewrite digit_value_10. by destruct (is_digit c). Qed.

(** [parseInt] returns [NaN] exactly when the text does not start with an
    integer. *)
Lemma isNaN_parseInt (s : jsstring) :
  isNaN (parseInt s) = negb (starts_integer s).
Proof.
  unfold parseInt, starts_integer.
  rewrite <- strip_sign_unsigned.
  destruct (strip_sign (trimStart s)) as [sign s1]. cbn [snd].
  destruct s1 as [|c [|x r]]; [done| |].
  - pose proof (digits_prefix_10_head c []) as H.
    by destruct (digits_prefix 10 [c]).
  - destruct ((c =? 48) && ((x =? 120) || (x =? 88))).
    + destruct r as [|d r']; [done|]. cbn [digits_prefix].
      pose proof (digit_value_16 d) as Hd.
      destruct (digit_value 16 d) as [v|].
      * destruct Hd as [-> _]; [eauto|done].
      * destruct (is_hex_digit d); [|done].
        destruct Hd as [_ Hd]. by destruct Hd.
    + pose proof (digits_prefix_10_head c (x :: r)) as H.
      by destruct (digits_prefix 10 (c :: x :: r)).
Qed.

(** [parseFloat] returns [NaN] exactly when the text does not start with a
    decimal number. *)
Lemma isNaN_parseFloat (s : jsstring) :
  isNaN (parseFloat s) = negb (starts_decimal s).
Proof.
  unfold parseFloat, starts_decimal.
  rewrite <- strip_sign_unsigned.
  destruct (strip_sign (trimStart s)) as [sign s1]. cbn [snd].
  destruct (startsWith (js "Infinity") s1); [by destruct (sign <? 0)%Z|].
  cbn [orb]. destruct s1 as [|c r]; [done|].
  cbn [digits_prefix]. rewrite digit_value_10.
  destruct (is_digit c); cbn [orb].
  { by destruct (match drop _ (c :: r) with
                 | [] => _ | c0 :: r0 => _ end) as [frac_ds s3]. }
  cbn [length drop]. destruct (c =? 46); [|done]. cbn [andb].
  destruct r as [|d r']; [done|].
  cbn [digits_prefix]. rewrite digit_value_10. by destruct (is_digit d).
Qed.

Lemma split_single_of_no_colon (s : jsstring) :
  includes [COLON] s = false → split COLON s = [s].
Proof. intros H. by apply split_no_sep, includes_singleton_false. Qed.

Lemma parseTime_colon_free (timeStr : jsstring) (frameRate : number) :
  includes [COLON] (trim timeStr) = false →
  parseTime timeStr frameRate
  = if starts_decimal (trim timeStr)
    then Some (parseFloat (trim timeStr)) else None.
Proof.
  intros H. unfold parseTime. rewrite H. cbn [negb].
  rewrite isNaN_parseFloat. by destruct (starts_decimal (trim timeStr)).
Qed.

Lemma parseTime_four_parts (timeStr a b c d : jsstring) (frameRate : number) :
  split COLON (trim timeStr) = [a; b; c; d] →
  parseTime timeStr frameRate
  = if starts_integer a && starts_integer b && starts_integer c
       && starts_integer d
    then Some (add (add (add (mul (parseInt a) (of_Z 3600))
                             (mul (parseInt b) (of_Z 60))) (parseInt c))
                   (div (parseInt d) frameRate))
    else None.
Proof.
  intros H. unfold parseTime.
  destruct (includes [COLON] (trim timeStr)) eqn:E; cbn [negb].
  2: { apply split_single_of_no_colon in E. congruence. }
  rewrite H, !isNaN_parseInt.
  by destruct (starts_integer a), (starts_integer b), (starts_integer c),
    (starts_integer d).
Qed.

(** *** Integers written in full *)

Lemma digit_not_whitespace (c : N) :
  is_digit c = true → is_whitespace c = false.
Proof.
  unfold is_digit, is_whitespace. intros [H1%N.leb_le H2%N.leb_le]%andb_true_iff.
  repeat match goal with
    | |- context [N.eqb ?a ?b] => destruct (N.eqb_spec a b); [lia|]
    end.
  case_compare; done || lia.
Qed.

Lemma digits_prefix_all (ds : jsstring) :
  forallb is_digit ds = true →
  digits_prefix 10 ds = map (λ c, c - 48) ds.
Proof.
  induction ds as [|c ds IH]; [done|].
  cbn [forallb digits_prefix map]. intros [Hc Hds]%andb_true_iff.
  by rewrite digit_value_10, Hc, IH.
Qed.

Lemma digits_to_Z_value (ds : jsstring) :
  forallb is_digit ds = true →
  digits_to_Z 10 (map (λ c, c - 48) ds) = digits_value ds.
Proof.
  unfold digits_to_Z, digits_value. generalize 0%Z.
  induction ds as [|c ds IH]; intros acc; [done|].
  cbn [forallb map fold_left]. intros [Hc Hds]%andb_true_iff.
  rewrite IH by done. f_equal.
  apply andb_true_iff in Hc as [?%N.leb_le ?%N.leb_le]. lia.
Qed.

(** On a string of digits [parseInt] reads them all, in base 10. *)
Lemma parseInt_digits (sign : Z) (ds : jsstring) :
  truthy ds = true → forallb is_digit ds = true →
  (let '(radix, s2) :=
     match ds with
     | c :: x :: r =>
         if (c =? 48) && ((x =? 120) || (x =? 88))
         then (16, r) else (10, ds)
     | _ => (10, ds)
     end in
   match digits_prefix radix s2 with
   | [] => NaN
   | n :: l => of_Z (sign * digits_to_Z radix (n :: l))
   end)
  = of_Z (sign * digits_value ds).
Proof.
  intros Hne Hds.
  assert (Hx : match ds with
               | c :: x :: r =>
                   if (c =? 48) && ((x =? 120) || (x =? 88))
                   then (16, r) else (10, ds)
               | _ => (10, ds)
               end = (10, ds)).
  { destruct ds as [|c [|x r]]; [done..|].
    cbn [forallb] in Hds.
    apply andb_true_iff in Hds as [_ [Hx _]%andb_true_iff].
    apply andb_true_iff in Hx as [?%N.leb_le ?%N.leb_le].
    destruct (N.eqb_spec x 120); [lia|]. destruct (N.eqb_spec x 88); [lia|].
    by rewrite andb_false_r. }
  rewrite Hx.
  pose proof (digits_prefix_all ds Hds) as Hp.
  pose proof (digits_to_Z_value ds Hds) as Hv.
  destruct (digits_prefix 10 ds) as [|n l] eqn:E.
  - destruct ds; done.
  - by rewrite Hp, Hv.
Qed.

Lemma integer_literal_first (c : N) (r : jsstring) (z : Z) :
  integer_literal (c :: r) = Some z → is_whitespace c = false.
Proof.
  unfold integer_literal, unsigned.
  destruct (N.eqb_spec c 45) as [->|]; [done|].
  destruct (N.eqb_spec c 43) as [->|]; [done|].
  cbn [orb truthy forallb andb].
  destruct (is_digit c) eqn:E; [|done]. intros _.
  by apply digit_not_whitespace.
Qed.

(** [parseInt] reads an integer written in full as its value. *)
Lemma parseInt_integer_literal (s : jsstring) (z : Z) :
  integer_literal s = Some z → parseInt s = of_Z z.
Proof.
  intros H. destruct s as [|c r]; [done|].
  pose proof (integer_literal_first c r z H) as Hws.
  unfold parseInt. rewrite trimStart_id by done.
  revert H. unfold integer_literal, unsigned, strip_sign.
  destruct (N.eqb_spec c 45) as [->|].
  { cbn [orb]. destruct (truthy r && forallb is_digit r) eqn:E; [|done].
    apply andb_true_iff in E as [Hne Hds]. intros [= <-].
    etrans; [exact (parseInt_digits (-1) r Hne Hds)|].
    f_equal; lia. }
  destruct (N.eqb_spec c 43) as [->|].
  { cbn [orb]. destruct (truthy r && forallb is_digit r) eqn:E; [|done].
    apply andb_true_iff in E as [Hne Hds]. intros [= <-].
    etrans; [exact (parseInt_digits 1 r Hne Hds)|].
    f_equal; lia. }
  cbn [orb].
  destruct (truthy (c :: r) && forallb is_digit (c :: r)) eqn:E; [|done].
  apply andb_true_iff in E as [Hne Hds]. intros [= <-].
  etrans; [exact (parseInt_digits 1 (c :: r) Hne Hds)|].
  f_equal; lia.
Qed.


End ParseFacts.

(** C4, as the code has it: [parseTime] returns for every text. A
    colon-free text yields no value exactly when, trimmed, it does not start
    with a decimal number, and a text of four parts exactly when one of the
    parts does not start with an integer. What follows the number is not
    looked at. *)
Theorem parseTime_none_iff (timeStr : jsstring) (frameRate : number) :
  (JSString.includes [COLON] (JSString.trim timeStr) = false →
   (CsvParser.parseTime timeStr frameRate = None
    ↔ Spec.starts_decimal (JSString.trim timeStr) = false))
  ∧ (∀ a b c d,
       JSString.split COLON (JSString.trim timeStr) = [a; b; c; d] →
       (CsvParser.parseTime timeStr frameRate = None
        ↔ Spec.starts_integer a = false ∨ Spec.starts_integer b = false
          ∨ Spec.starts_integer c = false ∨ Spec.starts_integer d = false)).
Proof.
  split.
  - intros H. rewrite (parseTime_colon_free _ _ H).
    by destruct (Spec.starts_decimal (JSString.trim timeStr)).
  - intros a b c d H. rewrite (parseTime_four_parts _ _ _ _ _ _ H).
    destruct (Spec.starts_integer a), (Spec.starts_integer b),
      (Spec.starts_integer c), (Spec.starts_integer d); cbn [andb];
      (split; [intros ?; first [done | by auto 6]
              | intros ?; first [done | intuition discriminate]]).
Qed.

Lemma parseTime_none_iff_witness :
  CsvParser.parseTime (js "abc") (JSNumber.of_Z 30) = None
  ∧ CsvParser.parseTime (js "0:0:xx:15") (JSNumber.of_Z 30) = None.
Proof.
  split.
  - apply (proj1 (parseTime_none_iff (js "abc") (JSNumber.of_Z 30)));
      reflexivity.
  - apply (proj2 (parseTime_none_iff (js "0:0:xx:15") (JSNumber.of_Z 30))
             (js "0") (js "0") (js "xx") (js "15")); [reflexivity|].
    right. right. left. reflexivity.
Defined.

(** C4, as the specification states it, fails: in [0:0:1.5:15] the seconds
    are not an integer, and [parseTime] returns 1.5 seconds, reading them as
    1. *)
Lemma parseTime_fractional_seconds_counterexample :
  JSString.split COLON (JSString.trim Spec.fractional_timecode)
  = [js "0"; js "0"; js "1.5"; js "15"]
  ∧ Spec.integer_literal (js "1.5") = None
  ∧ CsvParser.parseTime Spec.fractional_timecode (JSNumber.of_Z 30)
    = Some (Fin (45 # 30)).
Proof. by vm_compute. Qed.



(** ** The marker extractor *)

Section SortFacts.
Import JSString JSNumber JSGlobal CsvParser Spec.
Implicit Types (a b c : number) (x y : marker) (l : list marker).











End SortFacts.

Section ExtractFacts.
Import JSString JSNumber JSGlobal CsvParser Spec.






End ExtractFacts.



(** ** Buffers *)

Section BufferFacts.
Import JSNumber Buffer WavGenerator.
Implicit Types (buf pre mid rest bs : list N) (off j n : nat) (v : number).

Lemma alloc_of_nat (kMaxLength : Z) n :
  alloc kMaxLength (of_nat n)
  = if (Z.of_nat n <=? kMaxLength)%Z then Ok (replicate n 0)
    else Err RangeError.
Proof.
  unfold alloc, of_nat, of_Z. change 0%Q with (inject_Z 0).
  rewrite !Qle_bool_inject_Z, Qfloor_Z, Nat2Z.id.
  destruct (Z.leb_spec 0 (Z.of_nat n)); [done|lia].
Qed.

Lemma to_uint_of_Z (z : Z) : to_uint (of_Z z) = z.
Proof. apply Qfloor_Z. Qed.

Lemma out_of_range_of_Z (z max : Z) :
  out_of_range (of_Z z) max = ((max <? z) || (z <? 0))%Z.
Proof. unfold out_of_range, gtb. by rewrite !ltb_of_Z. Qed.

Lemma length_le_bytes n (z : Z) : length (le_bytes n z) = n.
Proof. revert z. induction n as [|n IH]; intros z; simpl; [done|]. by rewrite IH. Qed.

Lemma length_overlay off bs buf :
  (off + length bs ≤ length buf)%nat → length (overlay off bs buf) = length buf.
Proof.
  intros H. unfold overlay.
  rewrite !length_app, length_take, length_drop. lia.
Qed.

(** A store past a prefix of the buffer leaves the prefix as it is. *)
Lemma overlay_tail pre tail j bs :
  overlay (length pre + j) bs (pre ++ tail) = pre ++ overlay j bs tail.
Proof.
  unfold overlay.
  rewrite take_app_ge, drop_app_ge by lia.
  replace (length pre + j - length pre)%nat with j by lia.
  replace (length pre + j + length bs - length pre)%nat
    with (j + length bs)%nat by lia.
  by rewrite <- !app_assoc.
Qed.

Lemma utf8_fit_all (room : nat) (cps : list N) :
  (length (flat_map utf8_of_code_point cps) ≤ room)%nat →
  utf8_fit room cps = flat_map utf8_of_code_point cps.
Proof.
  revert room. induction cps as [|cp cps IH]; intros room; [done|].
  cbn [flat_map utf8_fit]. rewrite length_app. intros H.
  destruct (Nat.leb_spec (length (utf8_of_code_point cp)) room); [|lia].
  rewrite IH; [done|lia].
Qed.

Lemma length_utf8_fit (room : nat) (cps : list N) :
  (length (utf8_fit room cps) ≤ room)%nat.
Proof.
  revert room. induction cps as [|cp cps IH]; intros room; cbn [utf8_fit];
    [simpl; lia|].
  destruct (Nat.leb_spec (length (utf8_of_code_point cp)) room);
    [|simpl; lia].
  rewrite length_app.
  specialize (IH (room - length (utf8_of_code_point cp))%nat). lia.
Qed.

Lemma writeUIntLE_tail n v off pre tail j :
  off = (length pre + j)%nat → (j + n ≤ length tail)%nat →
  writeUIntLE n v off (pre ++ tail)
  = if out_of_range v (2 ^ (8 * Z.of_nat n) - 1) then Err RangeError
    else Ok (pre ++ overlay j (le_bytes n (to_uint v)) tail).
Proof.
  intros -> H. unfold writeUIntLE.
  destruct (out_of_range v _); [done|].
  rewrite !length_app.
  destruct (Nat.ltb_spec (length pre + length tail) (length pre + j + n));
    [lia|].
  by rewrite overlay_tail.
Qed.

Lemma write_tail (s : jsstring) off pre tail j :
  off = (length pre + j)%nat → (j + byteLength s ≤ length tail)%nat →
  write s off None (pre ++ tail) = Ok (pre ++ overlay j (utf8 s) tail).
Proof.
  intros -> H. unfold write, byteLength in *. rewrite !length_app.
  destruct (Nat.ltb_spec (length pre + length tail) (length pre + j)); [lia|].
  rewrite utf8_fit_all by (fold (utf8 s); lia).
  fold (utf8 s). by rewrite overlay_tail.
Qed.

(** Little-endian bytes read back as the number they were written from. *)
Lemma readUInt32LE_le_bytes (z : Z) (rest : list N) :
  (0 <= z < 2 ^ 32)%Z → readUInt32LE 0 (le_bytes 4 z ++ rest) = Some z.
Proof.
  intros H. unfold readUInt32LE. cbn [le_bytes drop app]. f_equal.
  rewrite !Z2N.id by (apply Z.mod_pos_bound; lia).
  pose proof (Z.div_mod z 256). pose proof (Z.div_mod (z / 256) 256).
  pose proof (Z.div_mod (z / 256 / 256) 256).
  assert (z / 256 / 256 / 256 < 256)%Z.
  { repeat (apply Z.div_lt_upper_bound; [lia|]). lia. }
  assert (0 <= z / 256 / 256 / 256)%Z by (repeat apply Z.div_pos; lia).
  rewrite (Z.mod_small (z / 256 / 256 / 256)) by lia. lia.
Qed.

Lemma readUInt32LE_app pre buf :
  readUInt32LE (length pre) (pre ++ buf) = readUInt32LE 0 buf.
Proof. unfold readUInt32LE. by rewrite drop_app_length. Qed.

End BufferFacts.

(** ** The encoder *)

Section CueFacts.
Import JSNumber Buffer CsvParser WavGenerator Spec.
Implicit Types (buf pre mid rest bs : list N) (off j n : nat) (v : number).

Lemma writeUInt32LE_tail v off pre tail j :
  off = (length pre + j)%nat → (j + 4 ≤ length tail)%nat →
  writeUInt32LE v off (pre ++ tail)
  = if out_of_range v 4294967295 then Err RangeError
    else Ok (pre ++ overlay j (le_bytes 4 (to_uint v)) tail).
Proof. apply (writeUIntLE_tail 4). Qed.

Ltac store32 pre j :=
  rewrite (writeUInt32LE_tail _ _ pre _ j) by (cbn [length]; lia).

Lemma length_cue_record (id : nat) (position : Z) :
  length (cue_record id position) = 24%nat.
Proof. done. Qed.

Lemma cue_points_exact (markers : list marker) (index offset : nat) pre :
  offset = length pre →
  cue_points markers (of_Z 44100) index offset
    (pre ++ replicate (24 * length markers) 0)
  = if cues_fit index markers then Ok (pre ++ cue_records index markers)
    else Err RangeError.
Proof.
  revert index offset pre.
  induction markers as [|m markers IH]; intros index offset pre Hoff.
  { cbn. by rewrite app_nil_r. }
  cbn [cue_points cues_fit cue_records length]. unfold uint32.
  fold (samplePosition m).
  replace (24 * S (length markers))%nat
    with (24 + 24 * length markers)%nat by lia.
  rewrite replicate_add. store_cbn. store32 pre 0%nat.
  destruct (out_of_range (of_nat (index + 1)) 4294967295); [done|].
  store_cbn. store32 pre 4%nat.
  destruct (out_of_range (samplePosition m) 4294967295) eqn:Epos; [done|].
  store_cbn.
  rewrite (write_tail _ _ pre _ 8)
    by (change (byteLength (js "data")) with 4%nat; cbn [length]; lia).
  change (utf8 (js "data")) with [100; 97; 116; 97].
  store_cbn. store32 pre 12%nat.
  change (out_of_range (of_Z 0) 4294967295) with false.
  store_cbn. store32 pre 16%nat.
  change (out_of_range (of_Z 0) 4294967295) with false.
  store_cbn. store32 pre 20%nat. rewrite Epos.
  store_cbn. cbn [negb andb]. unfold of_nat. rewrite !to_uint_of_Z.
  match goal with
  | |- cue_points _ _ _ _ (pre ++ ?tail) = _ =>
      change (pre ++ tail) with
        (pre ++ (cue_record (index + 1) (to_uint (samplePosition m))
                 ++ replicate (24 * length markers) 0))
  end.
  rewrite app_assoc, (IH (S index) (offset + 24)%nat)
    by (rewrite length_app, length_cue_record; lia).
  destruct (cues_fit (S index) markers); [|done].
  by rewrite <- app_assoc.
Qed.

End CueFacts.

Section ListFacts.
Import JSNumber Buffer CsvParser WavGenerator Spec.
Implicit Types (buf pre tail bs : list N) (off j n : nat) (v : variant).

Lemma length_utf8_of_code_point (cp : N) :
  (1 ≤ length (utf8_of_code_point cp) ≤ 4)%nat.
Proof. unfold utf8_of_code_point. repeat case_match; simpl; lia. Qed.

(** A string has at least as many UTF-8 bytes as code units. *)
Lemma length_le_byteLength (s : jsstring) : (length s ≤ byteLength s)%nat.
Proof.
  unfold byteLength, utf8.
  assert (H : ∀ n (s : jsstring), (length s ≤ n)%nat →
    (length s ≤ length (flat_map utf8_of_code_point (code_points s)))%nat);
    [|by apply (H (length s))].
  induction n as [|n IH]; intros [|c r] Hn; simpl in Hn |- *; try lia.
  destruct (is_high c) eqn:Eh.
  - destruct r as [|d r']; [simpl; lia|].
    destruct (is_low d) eqn:El; cbn [flat_map]; rewrite length_app.
    + assert (Hc : 65536 <= 65536 + (c - 55296) * 1024 + (d - 56320)) by lia.
      set (cp := 65536 + (c - 55296) * 1024 + (d - 56320)) in *.
      assert (length (utf8_of_code_point cp) = 4%nat) as ->.
      { unfold utf8_of_code_point.
        destruct (N.ltb_spec cp 128); [lia|].
        destruct (N.ltb_spec cp 2048); [lia|].
        destruct (N.ltb_spec cp 65536); [lia|]. done. }
      simpl in Hn. specialize (IH r'). simpl. lia.
    + pose proof (length_utf8_of_code_point 65533).
      specialize (IH (d :: r')). simpl in IH, Hn |- *. lia.
  - destruct (is_low c); cbn [flat_map]; rewrite length_app.
    + pose proof (length_utf8_of_code_point 65533). specialize (IH r). lia.
    + pose proof (length_utf8_of_code_point c). specialize (IH r). lia.
Qed.

Lemma paddedLength_bounds (label : jsstring) :
  (byteLength label + 1 ≤ paddedLength label ≤ byteLength label + 2)%nat
  ∧ (paddedLength label mod 2 = 0)%nat.
Proof.
  unfold paddedLength. cbv zeta.
  pose proof (Nat.mod_upper_bound (byteLength label + 1) 2).
  split; [lia|].
  rewrite (Nat.div_mod_eq (byteLength label + 1) 2) at 1.
  destruct ((byteLength label + 1) mod 2)%nat as [|[|k]]; [| |lia].
  - rewrite !Nat.add_0_r, Nat.mul_comm. apply Nat.Div0.mod_mul.
  - replace (2 * ((byteLength label + 1) `div` 2) + 1 + 1)%nat
      with ((((byteLength label + 1) `div` 2) + 1) * 2)%nat by lia.
    apply Nat.Div0.mod_mul.
Qed.

Lemma overlay_0_replicate bs n (x : N) :
  (length bs ≤ n)%nat →
  overlay 0 bs (replicate n x) = bs ++ replicate (n - length bs) x.
Proof. intros H. unfold overlay. by rewrite take_0, drop_replicate. Qed.

Lemma overlay_singleton j (x : N) (l : list N) :
  (j < length l)%nat → overlay j [x] l = <[j := x]> l.
Proof.
  intros H. unfold overlay. rewrite insert_take_drop by done.
  by replace (j + length [x])%nat with (S j) by (simpl; lia).
Qed.

Lemma writeUInt32LE_tail' (value : number) off pre tail j :
  off = (length pre + j)%nat → (j + 4 ≤ length tail)%nat →
  writeUInt32LE value off (pre ++ tail)
  = if uint32 value
    then Ok (pre ++ overlay j (le_bytes 4 (to_uint value)) tail)
    else Err RangeError.
Proof.
  intros H1 H2. unfold uint32.
  rewrite (writeUIntLE_tail 4 value off pre tail j H1 H2 : writeUInt32LE _ _ _ = _).
  by destruct (out_of_range value _).
Qed.

Lemma writeUInt32LE_head (value : number) j tail :
  (j + 4 ≤ length tail)%nat →
  writeUInt32LE value j tail
  = if uint32 value then Ok (overlay j (le_bytes 4 (to_uint value)) tail)
    else Err RangeError.
Proof. by apply (writeUInt32LE_tail' value j [] tail j). Qed.

Lemma write_head (s : jsstring) j tail :
  (j + byteLength s ≤ length tail)%nat →
  write s j None tail = Ok (overlay j (utf8 s) tail).
Proof. by apply (write_tail s j [] tail j). Qed.

(** The [labl] sub-chunk of a marker: the header, then the label bytes with
    a zero stored at the terminator index. *)
Lemma labl_exact (kMaxLength : Z) v (m : marker) (index : nat) :
  labl kMaxLength v m index
  = if labl_fits kMaxLength index (name m)
    then Ok (labl_header (index + 1) (name m)
             ++ <[terminator_index v (name m) := 0]> (labl_text (name m)))
    else Err RangeError.
Proof.
  unfold labl, labl_fits. fold (paddedLength (name m)).
  generalize (name m). intros label.
  pose proof (paddedLength_bounds label) as [Hpad _].
  pose proof (length_le_byteLength label) as Hlen.
  assert (Hterm : (terminator_index v label + 1 ≤ paddedLength label)%nat)
    by (destruct v; simpl; lia).
  assert (Hout : labl_header (index + 1) label
                 ++ <[terminator_index v label := 0]> (labl_text label)
                 = utf8 (js "labl")
                   ++ le_bytes 4 (Z.of_nat (4 + paddedLength label))
                   ++ le_bytes 4 (Z.of_nat (index + 1))
                   ++ <[terminator_index v label := 0]>
                        (utf8 label
                         ++ replicate (paddedLength label - byteLength label) 0))
    by (unfold labl_header; by rewrite <- !app_assoc).
  rewrite Hout. clear Hout.
  remember (paddedLength label) as padded eqn:Ep. clear Ep.
  rewrite alloc_of_nat.
  destruct (Z.of_nat (8 + 4 + padded) <=? kMaxLength)%Z; [|done].
  cbn [andb bind].
  replace (8 + 4 + padded)%nat with (12 + padded)%nat by lia.
  rewrite replicate_add.
  set (size := of_nat (4 + padded)).
  set (terminator := match v with
                     | Desktop => (12 + length label)%nat
                     | Web => (12 + byteLength label)%nat
                     end).
  store_cbn.
  rewrite write_head
    by (change (byteLength (js "labl")) with 4%nat; cbn [length]; lia).
  change (utf8 (js "labl")) with [108; 97; 98; 108]. store_cbn.
  rewrite writeUInt32LE_head by (cbn [length]; lia).
  destruct (uint32 size); [|done].
  store_cbn.
  rewrite writeUInt32LE_head by (cbn [length]; lia).
  destruct (uint32 (of_nat (index + 1))); [|done].
  store_cbn. subst size. unfold of_nat. rewrite !to_uint_of_Z.
  set (header := [108; 97; 98; 108] ++ le_bytes 4 (Z.of_nat (4 + padded))
                 ++ le_bytes 4 (Z.of_nat (index + 1))).
  match goal with
  | |- context [write label 12 None ?buf] =>
      change buf with (header ++ replicate padded 0)
  end.
  rewrite (write_tail _ 12 header _ 0)
    by (try done; rewrite length_replicate; lia).
  rewrite overlay_0_replicate by (fold (byteLength label); lia).
  fold (byteLength label). cbn [bind].
  replace terminator with (length header + terminator_index v label)%nat
    by (subst terminator; by destruct v).
  unfold writeUInt8.
  rewrite (writeUIntLE_tail 1 _ _ header _ (terminator_index v label))
    by (try done; rewrite length_app, length_replicate;
        unfold byteLength in *; lia).
  change (out_of_range (of_Z 0) _) with false. cbv iota.
  change (le_bytes 1 (to_uint (of_Z 0))) with [0].
  rewrite overlay_singleton
    by (rewrite length_app, length_replicate; unfold byteLength in *; lia).
  subst header. by rewrite <- !app_assoc.
Qed.

(** The web port stores the terminator on the zero that follows the label:
    the label bytes are left as they are. *)
Lemma labl_text_web (label : jsstring) :
  <[terminator_index Web label := 0]> (labl_text label) = labl_text label.
Proof.
  apply list_insert_id. unfold labl_text, terminator_index, byteLength.
  rewrite lookup_app_r by done. rewrite Nat.sub_diag.
  pose proof (paddedLength_bounds label) as [H _]. unfold byteLength in H.
  destruct (paddedLength label - length (utf8 label))%nat eqn:E; [lia|done].
Qed.

End ListFacts.

Section ChunkFacts.
Import JSNumber Buffer CsvParser WavGenerator Spec.
Implicit Types (buf pre tail bs : list N) (off j n : nat) (v : variant).

Lemma uint32_of_nat n :
  uint32 (of_nat n) = (Z.of_nat n <=? 4294967295)%Z.
Proof.
  unfold uint32, of_nat. rewrite out_of_range_of_Z.
  destruct (Z.ltb_spec 4294967295 (Z.of_nat n)), (Z.ltb_spec (Z.of_nat n) 0),
    (Z.leb_spec (Z.of_nat n) 4294967295); simpl; lia || done.
Qed.

Lemma subChunks_exact (kMaxLength : Z) v (markers : list marker)
    (index : nat) :
  subChunks kMaxLength v markers index
  = if labls_fit kMaxLength index markers
    then Ok (labl_chunks v index markers) else Err RangeError.
Proof.
  revert index. induction markers as [|m markers IH]; intros index; [done|].
  cbn [subChunks labls_fit labl_chunks]. rewrite labl_exact.
  destruct (labl_fits kMaxLength index (name m)); [|done].
  cbn [bind andb]. rewrite IH.
  by destruct (labls_fit kMaxLength (S index) markers).
Qed.

Lemma createListChunk_exact (kMaxLength : Z) v (markers : list marker) :
  createListChunk kMaxLength v markers
  = if labls_fit kMaxLength 0 markers
       && (Z.of_nat (length (list_payload v markers)) <=? kMaxLength)%Z
    then Ok (list_payload v markers) else Err RangeError.
Proof.
  unfold createListChunk, list_payload. rewrite subChunks_exact.
  destruct (labls_fit kMaxLength 0 markers); [|done]. cbn [bind andb].
  generalize (concat (labl_chunks v 0 markers)). intros sub.
  rewrite alloc_of_nat. change (utf8 (js "adtl")) with [97; 100; 116; 108].
  cbn [length app]. change (S (S (S (S (length sub))))) with (4 + length sub)%nat.
  destruct (Z.of_nat (4 + length sub) <=? kMaxLength)%Z; [|done].
  cbn [bind]. rewrite replicate_add. store_cbn.
  rewrite write_head
    by (change (byteLength (js "adtl")) with 4%nat; cbn [length]; lia).
  change (utf8 (js "adtl")) with [97; 100; 116; 108]. store_cbn.
  rewrite drop_0. f_equal. unfold copy. cbn [length].
  rewrite length_replicate.
  replace (S (S (S (S (length sub)))) - 4)%nat with (length sub) by lia.
  rewrite firstn_all. cbn [Nat.ltb Nat.leb].
  change (97 :: 100 :: 116 :: 108 :: replicate (length sub) 0)
    with ([97; 100; 116; 108] ++ replicate (length sub) 0).
  rewrite (overlay_tail [97; 100; 116; 108] _ 0).
  rewrite overlay_0_replicate by done.
  by rewrite Nat.sub_diag, app_nil_r.
Qed.

Lemma createCueChunk_exact (kMaxLength : Z) (markers : list marker) :
  createCueChunk kMaxLength markers (of_Z 44100)
  = if (Z.of_nat (4 + length markers * 24) <=? kMaxLength)%Z
       && uint32 (of_nat (length markers)) && cues_fit 0 markers
    then Ok (cue_payload markers) else Err RangeError.
Proof.
  unfold createCueChunk, cue_payload. rewrite alloc_of_nat.
  destruct (Z.of_nat (4 + length markers * 24) <=? kMaxLength)%Z; [|done].
  cbn [bind andb]. rewrite replicate_add. store_cbn.
  rewrite writeUInt32LE_head by (cbn [length]; lia).
  destruct (uint32 (of_nat (length markers))); [|done].
  store_cbn. unfold of_nat. rewrite to_uint_of_Z.
  replace (length markers * 24)%nat with (24 * length markers)%nat by lia.
  match goal with
  | |- cue_points _ _ _ _ ?buf = _ =>
      change buf with (le_bytes 4 (Z.of_nat (length markers))
                       ++ replicate (24 * length markers) 0)
  end.
  by rewrite cue_points_exact.
Qed.

Lemma createChunkHeader_exact (kMaxLength : Z) (id : jsstring) (size : nat) :
  (8 <= kMaxLength)%Z → byteLength id = 4%nat →
  createChunkHeader kMaxLength id size
  = if uint32 (of_nat size) then Ok (chunk_header id size)
    else Err RangeError.
Proof.
  intros HkMax Hid. unfold createChunkHeader, chunk_header.
  change (of_Z 8) with (of_nat 8). rewrite alloc_of_nat.
  destruct (Z.leb_spec (Z.of_nat 8) kMaxLength); [|lia]. cbn [bind].
  rewrite write_head by (rewrite Hid; cbn; lia).
  cbn [bind]. unfold byteLength in Hid.
  destruct (utf8 id) as [|a [|b [|c [|d [|e l]]]]]; try done.
  store_cbn. rewrite writeUInt32LE_head by (cbn [length]; lia).
  destruct (uint32 (of_nat size)); [|done].
  store_cbn. unfold of_nat. by rewrite to_uint_of_Z.
Qed.

Lemma createFmtChunk_exact (kMaxLength : Z) :
  (16 <= kMaxLength)%Z →
  createFmtChunk kMaxLength (of_Z 44100) (of_Z 2) (of_Z 16) = Ok fmt_payload.
Proof.
  intros HkMax. unfold createFmtChunk.
  change (of_Z 16) with (of_nat 16) at 1. rewrite alloc_of_nat.
  destruct (Z.leb_spec (Z.of_nat 16) kMaxLength); [|lia]. by vm_compute.
Qed.

Lemma write_Some_ok (s : jsstring) off n buf (len : nat) :
  length buf = len → (off ≤ len)%nat → (n ≤ len)%nat →
  ∃ b, write s off (Some n) buf = Ok b ∧ length b = len.
Proof.
  intros Hlen Hoff Hn. unfold write. rewrite Hlen.
  destruct (Nat.ltb_spec len off); [lia|].
  destruct (Nat.ltb_spec len n); [lia|].
  eexists. split; [done|]. rewrite length_overlay; [done|].
  pose proof (length_utf8_fit (Nat.min n (len - off)) (code_points s)). lia.
Qed.

Lemma writeUIntLE_ok (k : nat) (value : number) off buf (len : nat) :
  length buf = len → (off + k ≤ len)%nat →
  out_of_range value (2 ^ (8 * Z.of_nat k) - 1) = false →
  ∃ b, writeUIntLE k value off buf = Ok b ∧ length b = len.
Proof.
  intros Hlen Hoff Hv. unfold writeUIntLE. rewrite Hv, Hlen.
  destruct (Nat.ltb_spec len (off + k)); [lia|].
  eexists. split; [done|]. rewrite length_overlay; [done|].
  rewrite length_le_bytes. lia.
Qed.

Lemma createBextChunk_ok (v : variant) (clk : clock) :
  ∃ chunk, createBextChunk 602 v clk = Ok chunk ∧ length chunk = 602%nat.
Proof.
  unfold createBextChunk. change (of_Z 602) with (of_nat 602).
  rewrite alloc_of_nat.
  change (Z.of_nat 602 <=? 602)%Z with true. cbv iota. cbn [bind].
  pose proof (length_replicate 602 0) as L0.
  unfold writeUInt32LE, writeUInt16LE.
  repeat match goal with
    | L : length ?buf = 602%nat
      |- context [bind (write ?s ?off (Some ?n) ?buf) _] =>
        let b := fresh "b" in let E := fresh "E" in let L' := fresh "L" in
        destruct (write_Some_ok s off n buf 602 L) as (b & E & L');
        [lia | lia | rewrite E; cbn [bind]; clear E]
    | L : length ?buf = 602%nat
      |- context [bind (writeUIntLE ?k ?x ?off ?buf) _] =>
        let b := fresh "b" in let E := fresh "E" in let L' := fresh "L" in
        destruct (writeUIntLE_ok k x off buf 602 L) as (b & E & L');
        [lia | done | rewrite E; cbn [bind]; clear E]
    end.
  apply writeUIntLE_ok; [done | lia | by vm_compute].
Qed.

Lemma createBextChunk_exact (kMaxLength : Z) (v : variant) (clk : clock) :
  createBextChunk kMaxLength v clk
  = if (602 <=? kMaxLength)%Z then Ok (bext_payload v clk)
    else Err RangeError.
Proof.
  unfold bext_payload.
  destruct (createBextChunk_ok v clk) as (chunk & E & _). rewrite E.
  revert E. unfold createBextChunk. change (of_Z 602) with (of_nat 602).
  rewrite !alloc_of_nat. change (Z.of_nat 602) with 602%Z.
  change (602 <=? 602)%Z with true. cbv iota.
  by destruct (602 <=? kMaxLength)%Z.
Qed.

Lemma length_bext_payload (v : variant) (clk : clock) :
  length (bext_payload v clk) = 602%nat.
Proof.
  unfold bext_payload. by destruct (createBextChunk_ok v clk) as (? & -> & ?).
Qed.

(** The size of the [data] chunk: four bytes for each of 44100 samples in
    each second. *)
Lemma alloc_data (kMaxLength : Z) (q : Q) (d : Z) :
  (q == inject_Z d)%Q →
  alloc kMaxLength (mul (mul (mul (Fin q) (of_Z 44100)) (of_Z 2))
                        (div (of_Z 16) (of_Z 8)))
  = if (0 <=? d * 176400)%Z && (d * 176400 <=? kMaxLength)%Z
    then Ok (replicate (Z.to_nat (d * 176400)) 0) else Err RangeError.
Proof.
  intros Hq. cbn [mul div of_Z].
  change (Qeq_bool (inject_Z 8) 0) with false. cbv iota. unfold alloc.
  assert (HQ : (q * inject_Z 44100 * inject_Z 2 * (inject_Z 16 / inject_Z 8)
                == inject_Z (d * 176400))%Q).
  { rewrite Hq. unfold Qeq, Qmult, Qdiv, Qinv, inject_Z. cbn. lia. }
  rewrite (Qleb_comp _ _ (Qeq_refl 0) _ _ HQ).
  rewrite (Qleb_comp _ _ HQ _ _ (Qeq_refl (inject_Z kMaxLength))).
  rewrite (Qfloor_comp _ _ HQ), Qfloor_Z.
  change 0%Q with (inject_Z 0). by rewrite !Qle_bool_inject_Z.
Qed.

Lemma createDataChunk_exact (kMaxLength : Z) (markers : list marker) :
  createDataChunk kMaxLength
    (mul (duration markers) (of_Z 44100)) (of_Z 2) (div (of_Z 16) (of_Z 8))
  = if (0 <=? data_size markers)%Z && (data_size markers <=? kMaxLength)%Z
    then Ok (data_payload markers) else Err RangeError.
Proof.
  unfold createDataChunk, duration, data_payload, data_size, duration_seconds.
  destruct (last markers) as [m|].
  - destruct (time m) as [| | |q]; try done.
    cbn [ceil add of_Z]. apply alloc_data.
    by rewrite inject_Z_plus.
  - by apply alloc_data.
Qed.

End ChunkFacts.

Section EncoderFacts.
Import JSNumber Buffer CsvParser WavGenerator Spec.
Implicit Types (v : variant) (clk : clock) (markers : list marker).

Lemma length_cue_records (index : nat) markers :
  length (cue_records index markers) = (24 * length markers)%nat.
Proof.
  revert index. induction markers as [|m markers IH]; intros index; [done|].
  cbn [cue_records length]. rewrite length_app, length_cue_record, IH. lia.
Qed.

Lemma length_cue_payload markers :
  length (cue_payload markers) = (4 + length markers * 24)%nat.
Proof.
  unfold cue_payload.
  rewrite length_app, length_le_bytes, length_cue_records. lia.
Qed.

(** The size field of the RIFF header is the size computed from the
    markers. *)
Lemma file_size_wav_size v clk markers :
  (0 <= data_size markers)%Z →
  Z.of_nat (file_size fmt_payload (bext_payload v clk) (data_payload markers)
              (cue_payload markers) (list_payload v markers))
  = wav_size v markers.
Proof.
  intros Hd. unfold file_size, wav_size, data_payload.
  rewrite length_bext_payload, length_cue_payload, length_replicate.
  change (length fmt_payload) with 16%nat. lia.
Qed.

Lemma riff_header_exact {B} (kMaxLength : Z) (fileSize : nat)
    (k : buffer → result B) :
  (12 <= kMaxLength)%Z →
  (riffHeader <- alloc kMaxLength (of_Z 12) ;;
   riffHeader <- write (js "RIFF") 0 None riffHeader ;;
   riffHeader <- writeUInt32LE (of_nat fileSize) 4 riffHeader ;;
   riffHeader <- write (js "WAVE") 8 None riffHeader ;;
   k riffHeader)
  = if uint32 (of_nat fileSize) then k (riff_header fileSize)
    else Err RangeError.
Proof.
  intros HkMax. change (of_Z 12) with (of_nat 12). rewrite alloc_of_nat.
  destruct (Z.leb_spec (Z.of_nat 12) kMaxLength); [|lia]. store_cbn.
  rewrite write_head
    by (change (byteLength (js "RIFF")) with 4%nat; cbn [length]; lia).
  change (utf8 (js "RIFF")) with [82; 73; 70; 70]. store_cbn.
  rewrite writeUInt32LE_head by (cbn [length]; lia).
  destruct (uint32 (of_nat fileSize)); [|done]. store_cbn.
  rewrite write_head
    by (change (byteLength (js "WAVE")) with 4%nat; cbn [length]; lia).
  unfold of_nat. rewrite to_uint_of_Z. done.
Qed.

(** The encoder returns the file laid out from the markers, or throws a
    [RangeError] when the markers cannot be encoded. *)
Lemma generateWavWithMarkers_exact (kMaxLength : Z) v clk markers :
  generateWavWithMarkers kMaxLength v clk markers
  = if encodable kMaxLength v markers
    then Ok (wav_file fmt_payload (bext_payload v clk) (data_payload markers)
               (cue_payload markers) (list_payload v markers))
    else Err RangeError.
Proof.
  unfold generateWavWithMarkers, encodable. cbv zeta.
  destruct (Z.leb_spec 602 kMaxLength) as [HkMax|HkMax]; cbn [andb].
  2: { destruct (Z.le_gt_cases 16 kMaxLength).
       - rewrite createFmtChunk_exact by done. cbn [bind].
         rewrite createBextChunk_exact.
         by destruct (Z.leb_spec 602 kMaxLength); [lia|].
       - unfold createFmtChunk. change (of_Z 16) with (of_nat 16) at 1.
         rewrite alloc_of_nat.
         by destruct (Z.leb_spec (Z.of_nat 16) kMaxLength); [lia|]. }
  rewrite createFmtChunk_exact by lia. cbn [bind].
  rewrite createBextChunk_exact.
  destruct (Z.leb_spec 602 kMaxLength); [|lia]. cbn [bind].
  rewrite createCueChunk_exact.
  destruct (Z.of_nat (4 + length markers * 24) <=? kMaxLength)%Z; [|done].
  destruct (uint32 (of_nat (length markers))); [|done].
  destruct (cues_fit 0 markers); [|done]. cbn [andb bind].
  rewrite createListChunk_exact.
  destruct (labls_fit kMaxLength 0 markers); [|done].
  destruct (Z.of_nat (length (list_payload v markers)) <=? kMaxLength)%Z;
    [|done].
  cbn [andb bind]. rewrite createDataChunk_exact.
  destruct (Z.leb_spec 0 (data_size markers)) as [Hd|]; [|done].
  destruct (data_size markers <=? kMaxLength)%Z; [|done]. cbn [andb bind].
  fold (file_size fmt_payload (bext_payload v clk) (data_payload markers)
          (cue_payload markers) (list_payload v markers)).
  rewrite riff_header_exact by lia.
  pose proof (file_size_wav_size v clk markers Hd) as Hsize.
  rewrite uint32_of_nat, Hsize.
  destruct (Z.leb_spec (wav_size v markers) 4294967295) as [Hfit|]; [|done].
  assert (Hle : ∀ n, (n ≤ file_size fmt_payload (bext_payload v clk)
                            (data_payload markers) (cue_payload markers)
                            (list_payload v markers))%nat →
                     uint32 (of_nat n) = true).
  { intros n Hn. rewrite uint32_of_nat. apply Z.leb_le. lia. }
  rewrite !createChunkHeader_exact by (done || lia).
  rewrite !Hle by (unfold file_size; lia). cbn [bind].
  f_equal. unfold wav_file. cbn [concat]. by rewrite app_nil_r.
Qed.

End EncoderFacts.

(** ** The file as a RIFF reader sees it *)

Section RiffFacts.
Import JSNumber Buffer CsvParser WavGenerator Spec.
Implicit Types (id : jsstring) (fmt bext data cue lst payload rest : list N).

Lemma length_chunk_header id (size : nat) :
  byteLength id = 4%nat → length (chunk_header id size) = 8%nat.
Proof.
  intros H. unfold chunk_header, byteLength in *.
  by rewrite length_app, H, length_le_bytes.
Qed.

Lemma length_riff_header (fileSize : nat) :
  length (riff_header fileSize) = 12%nat.
Proof. done. Qed.

Lemma length_wav_file fmt bext data cue lst :
  length (wav_file fmt bext data cue lst)
  = (8 + file_size fmt bext data cue lst)%nat.
Proof.
  unfold wav_file, file_size.
  rewrite !length_app, length_riff_header, !length_chunk_header by done. lia.
Qed.

(** A reader that starts at a chunk header finds the identifier and the
    payload, and goes on behind the payload. *)
Lemma riff_chunks_chunk (fuel : nat) id payload rest :
  byteLength id = 4%nat → (Z.of_nat (length payload) < 2 ^ 32)%Z →
  riff_chunks (S fuel) (chunk_header id (length payload) ++ payload ++ rest)
  = (utf8 id, payload) :: riff_chunks fuel rest.
Proof.
  intros Hid Hsize. unfold chunk_header, byteLength in *.
  destruct (utf8 id) as [|a [|b [|c [|d [|e l]]]]]; try done.
  cbn [riff_chunks app].
  rewrite readUInt32LE_le_bytes by lia.
  rewrite Nat2Z.id. f_equal.
  - f_equal.
    rewrite (drop_app_length' (le_bytes 4 _) _ 4) by (by rewrite length_le_bytes).
    by rewrite take_app_length.
  - f_equal. rewrite <- drop_drop.
    rewrite (drop_app_length' (le_bytes 4 _) _ 4) by (by rewrite length_le_bytes).
    by rewrite drop_app_length.
Qed.

(** The chunks of an encoded file are the five chunks, in the order of the
    encoder. *)
Lemma chunks_of_wav_file fmt bext data cue lst :
  (Z.of_nat (file_size fmt bext data cue lst) < 2 ^ 32)%Z →
  chunks_of (wav_file fmt bext data cue lst)
  = [(utf8 (js "fmt "), fmt); (utf8 (js "bext"), bext);
     (utf8 (js "data"), data); (utf8 (js "cue "), cue);
     (utf8 (js "LIST"), lst)].
Proof.
  intros Hsize. unfold chunks_of. rewrite length_wav_file.
  unfold wav_file at 1.
  rewrite (drop_app_length' (riff_header _) _ 12) by done.
  unfold file_size in *.
  replace (8 + (4 + (8 + length fmt) + (8 + length bext) + (8 + length data)
                + (8 + length cue) + (8 + length lst)))%nat
    with (S (S (S (S (S (S (length fmt + length bext + length data
                            + length cue + length lst + 46)))))))%nat by lia.
  replace (chunk_header (js "LIST") (length lst) ++ lst)
    with (chunk_header (js "LIST") (length lst) ++ lst ++ [])
    by (by rewrite app_nil_r).
  by rewrite !riff_chunks_chunk by (done || lia).
Qed.

Lemma readUInt32LE_wav_file fmt bext data cue lst :
  (Z.of_nat (file_size fmt bext data cue lst) < 2 ^ 32)%Z →
  readUInt32LE 4 (wav_file fmt bext data cue lst)
  = Some (Z.of_nat (file_size fmt bext data cue lst)).
Proof.
  intros Hsize. unfold wav_file, riff_header.
  change (utf8 (js "RIFF")) with [82; 73; 70; 70].
  rewrite <- !app_assoc.
  rewrite (readUInt32LE_app [82; 73; 70; 70]).
  apply readUInt32LE_le_bytes. lia.
Qed.

End RiffFacts.

Section OutputFacts.
Import JSNumber Buffer CsvParser WavGenerator Spec.
Implicit Types (v : variant) (clk : clock) (markers : list marker).

Lemma find_chunk_wav_file (fmt bext data cue lst : list N) :
  (Z.of_nat (file_size fmt bext data cue lst) < 2 ^ 32)%Z →
  find_chunk (js "data") (wav_file fmt bext data cue lst) = Some data
  ∧ find_chunk (js "cue ") (wav_file fmt bext data cue lst) = Some cue
  ∧ find_chunk (js "LIST") (wav_file fmt bext data cue lst) = Some lst.
Proof.
  intros H. unfold find_chunk. by rewrite chunks_of_wav_file.
Qed.

(** What follows from a successful encoding. *)
Lemma generateWavWithMarkers_Ok (kMaxLength : Z) v clk markers bytes :
  generateWavWithMarkers kMaxLength v clk markers = Ok bytes →
  bytes = wav_file fmt_payload (bext_payload v clk) (data_payload markers)
            (cue_payload markers) (list_payload v markers)
  ∧ (Z.of_nat (file_size fmt_payload (bext_payload v clk)
                 (data_payload markers) (cue_payload markers)
                 (list_payload v markers)) < 2 ^ 32)%Z
  ∧ (0 <= data_size markers)%Z
  ∧ cues_fit 0 markers = true.
Proof.
  rewrite generateWavWithMarkers_exact.
  destruct (encodable kMaxLength v markers) eqn:E; [|done].
  intros [= <-]. split; [done|].
  unfold encodable in E. rewrite !andb_true_iff in E.
  destruct E as [[[[[[[[_ _] _] Hcue] _] _] Hd%Z.leb_le] _] Hs%Z.leb_le].
  rewrite file_size_wav_size by done. split; [lia|done].
Qed.

Lemma uint32_to_uint (value : number) :
  uint32 value = true → (0 <= to_uint value < 2 ^ 32)%Z.
Proof.
  unfold uint32, out_of_range, gtb. destruct value as [| | |q]; try done.
  cbn [ltb to_uint of_Z]. rewrite negb_true_iff, orb_false_iff.
  rewrite !negb_false_iff, !Qle_bool_iff. intros [Hmax Hmin].
  apply Qfloor_resp_le in Hmax, Hmin. rewrite Qfloor_Z in Hmax, Hmin. lia.
Qed.

(** The [i]-th record of the [cue ] chunk holds the sample position of the
    [i]-th marker. *)
Lemma cue_records_position (index : nat) markers (i : nat) (m : marker)
    (pre : list N) :
  markers !! i = Some m → cues_fit index markers = true →
  readUInt32LE (length pre + 24 * i + 4) (pre ++ cue_records index markers)
  = Some (to_uint (samplePosition m)).
Proof.
  revert index i pre.
  induction markers as [|m0 markers IH]; intros index i pre Hi Hfit; [done|].
  cbn [cues_fit] in Hfit. rewrite !andb_true_iff in Hfit.
  destruct Hfit as [[_ Hpos] Hfit]. cbn [cue_records].
  destruct i as [|i].
  - injection Hi as ->. unfold cue_record.
    rewrite <- !app_assoc, (app_assoc pre).
    replace (length pre + 24 * 0 + 4)%nat
      with (length (pre ++ le_bytes 4 (Z.of_nat (index + 1))))
      by (rewrite length_app, length_le_bytes; lia).
    rewrite readUInt32LE_app. apply readUInt32LE_le_bytes.
    by apply uint32_to_uint.
  - cbn [lookup list_lookup] in Hi. rewrite app_assoc.
    replace (length pre + 24 * S i + 4)%nat
      with (length (pre ++ cue_record (index + 1)
                             (to_uint (samplePosition m0))) + 24 * i + 4)%nat
      by (rewrite length_app, length_cue_record; lia).
    by apply IH.
Qed.

Lemma cue_position_payload markers (i : nat) (m : marker) :
  markers !! i = Some m → cues_fit 0 markers = true →
  cue_position i (cue_payload markers) = Some (to_uint (samplePosition m)).
Proof.
  intros Hi Hfit. unfold cue_position, cue_payload.
  apply (cue_records_position 0 markers i m
           (le_bytes 4 (Z.of_nat (length markers))) Hi Hfit).
Qed.

Lemma labls_fit_mono (k1 k2 : Z) (index : nat) markers :
  (k1 <= k2)%Z → labls_fit k1 index markers = true →
  labls_fit k2 index markers = true.
Proof.
  intros Hk. revert index.
  induction markers as [|m markers IH]; intros index; [done|].
  cbn [labls_fit]. unfold labl_fits. rewrite !andb_true_iff, !Z.leb_le.
  intros [[[H1 H2] H3] H4]. repeat split; try done; [lia|by apply IH].
Qed.

(** A larger limit on the size of buffers does not make a marker list
    unencodable. *)
Lemma encodable_mono (k1 k2 : Z) v markers :
  (k1 <= k2)%Z → encodable k1 v markers = true →
  encodable k2 v markers = true.
Proof.
  intros Hk. unfold encodable. rewrite !andb_true_iff, !Z.leb_le.
  intros [[[[[[[[H1 H2] H3] H4] H5] H6] H7] H8] H9].
  repeat split; try done; try lia. by apply (labls_fit_mono k1).
Qed.

End OutputFacts.

(** C8: the size field of the RIFF header is the length of the file minus 8,
    and the file is the 12-byte header followed by the chunks [fmt ],
    [bext], [data], [cue ] and [LIST], each behind 8 bytes of header; the
    encoder returns the file for every marker list that is encodable. *)
Theorem riff_size_accounting (kMaxLength : Z) (v : variant) (clk : clock)
    (markers : list CsvParser.marker) :
  (Spec.encodable kMaxLength v markers = true →
   ∃ bytes,
     WavGenerator.generateWavWithMarkers kMaxLength v clk markers = Ok bytes)
  ∧ ∀ bytes,
      WavGenerator.generateWavWithMarkers kMaxLength v clk markers = Ok bytes →
      ∃ fmt bext data cue lst,
        Spec.chunks_of bytes
        = [(Buffer.utf8 (js "fmt "), fmt); (Buffer.utf8 (js "bext"), bext);
           (Buffer.utf8 (js "data"), data); (Buffer.utf8 (js "cue "), cue);
           (Buffer.utf8 (js "LIST"), lst)]
        ∧ length bytes
          = (12 + (8 + length fmt) + (8 + length bext) + (8 + length data)
             + (8 + length cue) + (8 + length lst))%nat
        ∧ Buffer.readUInt32LE 4 bytes = Some (Z.of_nat (length bytes) - 8)%Z.
Proof.
  split.
  - intros H. rewrite generateWavWithMarkers_exact, H. eauto.
  - intros bytes (-> & Hsize & _)%generateWavWithMarkers_Ok.
    eexists _, _, _, _, _. split; [by apply chunks_of_wav_file|].
    rewrite length_wav_file, readUInt32LE_wav_file by done.
    split; [unfold Spec.file_size; lia|]. f_equal. lia.
Qed.

Lemma riff_size_accounting_witness :
  ∃ bytes,
    WavGenerator.generateWavWithMarkers 4294967296 Desktop
      (Clock 1700000000000 2025 10 3 9 5 7) Spec.scenario_markers = Ok bytes
    ∧ Buffer.readUInt32LE 4 bytes = Some (Z.of_nat (length bytes) - 8)%Z.
Proof.
  destruct (riff_size_accounting 4294967296 Desktop
              (Clock 1700000000000 2025 10 3 9 5 7) Spec.scenario_markers)
    as [Htotal Hsize].
  destruct Htotal as [bytes Hbytes]; [by vm_compute|].
  exists bytes. split; [exact Hbytes|].
  destruct (Hsize bytes Hbytes) as (? & ? & ? & ? & ? & _ & _ & H). exact H.
Defined.



(** The markers of the scenario are those the extractor returns for its
    log, at 30 frames per second. *)
Lemma scenario_extraction :
  CsvParser.parseCSVWithSelectedFields Spec.scenario_csv (JSNumber.of_Z 30)
    (js "time") [js "name"] = Ok Spec.scenario_markers.
Proof. by vm_compute. Qed.

Section LabelFacts.
Import JSNumber Buffer CsvParser WavGenerator Spec.

(** The [labl] sub-chunk of the web port: the header, the UTF-8 bytes of the
    label, the terminator and at most one byte of padding. *)
Lemma labl_chunk_web (id : nat) (label : jsstring) :
  labl_chunk Web id label
  = labl_header id label ++ utf8 label
    ++ 0 :: replicate ((byteLength label + 1) mod 2) 0.
Proof.
  unfold labl_chunk. rewrite labl_text_web. unfold labl_text, paddedLength.
  cbv zeta.
  by replace (byteLength label + 1 + (byteLength label + 1) `mod` 2
              - byteLength label)%nat
    with (S ((byteLength label + 1) `mod` 2)) by lia.
Qed.

Lemma utf8_ascii (label : jsstring) :
  Forall (λ c, c < 128) label → utf8 label = label.
Proof.
  unfold utf8. induction 1 as [|c label Hc _ IH]; [done|].
  cbn [code_points]. unfold is_high, is_low.
  destruct (N.leb_spec 55296 c); [lia|].
  destruct (N.leb_spec 56320 c); [lia|].
  cbn [andb flat_map]. rewrite IH. unfold utf8_of_code_point.
  by destruct (N.ltb_spec c 128); [|lia].
Qed.

(** On a label of ASCII characters the desktop encoder builds the same
    sub-chunk as the web port. *)
Lemma labl_chunk_desktop_ascii (id : nat) (label : jsstring) :
  Forall (λ c, c < 128) label →
  labl_chunk Desktop id label = labl_chunk Web id label.
Proof.
  intros H. unfold labl_chunk, terminator_index, byteLength.
  by rewrite (utf8_ascii label H).
Qed.

End LabelFacts.

(** C1, on the code: for the label of the three letters A-ring,
    A-diaeresis and O-diaeresis separated by spaces, 8 bytes in UTF-8, the
    desktop encoder stores the terminator at [12 + label.length], inside
    the label. The byte it replaces is the second space; the web port, which
    stores it at [12 + labelByteLength], keeps the 8 bytes. *)
Theorem createListChunk_desktop_terminator_inside_label (t : number) :
  Buffer.utf8 Spec.swedish_label = [195; 133; 32; 195; 132; 32; 195; 150]
  ∧ WavGenerator.createListChunk 4294967296 Desktop
      [CsvParser.Marker t Spec.swedish_label]
    = Ok (Buffer.utf8 (js "adtl") ++ Spec.labl_header 1 Spec.swedish_label
          ++ [195; 133; 32; 195; 132; 0; 195; 150; 0; 0])
  ∧ WavGenerator.createListChunk 4294967296 Web
      [CsvParser.Marker t Spec.swedish_label]
    = Ok (Buffer.utf8 (js "adtl") ++ Spec.labl_header 1 Spec.swedish_label
          ++ [195; 133; 32; 195; 132; 32; 195; 150; 0; 0]).
Proof. by vm_compute. Qed.

(** ** The callers *)

Section HandlerFacts.
Import JSString JSNumber Buffer CsvParser WavGenerator Handlers Spec.

(** The web route refuses a log without markers. *)
Lemma POST_no_markers (kMaxLength : Z) (clk : clock)
    (JSON_parse : jsstring → option (list jsstring))
    (csvContent timeColumn json : jsstring) (frameRate : number)
    (selectedFields : list jsstring) :
  truthy timeColumn = true → truthy json = true →
  JSON_parse json = Some selectedFields →
  parseCSVWithSelectedFields csvContent frameRate timeColumn selectedFields
  = Ok [] →
  POST kMaxLength clk JSON_parse (Some csvContent) frameRate
    (Some timeColumn) (Some json)
  = failure 400 NoValidMarkers.
Proof.
  intros Htc Hjson Hparse Hmarkers. unfold POST.
  by rewrite Htc, Hjson, Hparse, Hmarkers.
Qed.

(** The desktop handler has no such test: without markers it writes the
    file the encoder returns for the empty list. *)
Lemma ipc_generate_wav_no_markers (kMaxLength : Z) (clk : clock)
    (csvContent timeColumn path : jsstring) (frameRate : number)
    (selectedFields : list jsstring) :
  (10 * (44100 * 2 * 2) <= kMaxLength)%Z → truthy path = true →
  parseCSVWithSelectedFields csvContent frameRate timeColumn selectedFields
  = Ok [] →
  ipc_generate_wav kMaxLength clk csvContent frameRate timeColumn
    selectedFields (Some path)
  = Reply true 0 Created
      (Some (wav_file fmt_payload (bext_payload Desktop clk) (data_payload [])
               (cue_payload []) (list_payload Desktop []))).
Proof.
  intros HkMax Hpath Hmarkers. unfold ipc_generate_wav.
  rewrite Hmarkers, Hpath. cbn [negb].
  rewrite generateWavWithMarkers_exact.
  by rewrite (encodable_mono (10 * (44100 * 2 * 2)) kMaxLength Desktop []
                HkMax eq_refl).
Qed.

End HandlerFacts.

(** C6, on the code: for a log whose only row has the time cell [abc] no
    marker is extracted; the web route answers with the error
    'No valid markers found in CSV', and the desktop handler reports success
    and writes a WAV file with 10 seconds of silence and no cue point. *)
Theorem ipc_generate_wav_writes_file_without_markers (kMaxLength : Z)
    (clk : clock) (JSON_parse : jsstring → option (list jsstring))
    (json path : jsstring) :
  (10 * (44100 * 2 * 2) <= kMaxLength)%Z →
  JSString.truthy path = true →
  JSString.truthy json = true →
  JSON_parse json = Some [js "name"] →
  CsvParser.parseCSVWithSelectedFields Spec.unparsable_csv (JSNumber.of_Z 30)
    (js "time") [js "name"] = Ok []
  ∧ Handlers.POST kMaxLength clk JSON_parse (Some Spec.unparsable_csv)
      (JSNumber.of_Z 30) (Some (js "time")) (Some json)
    = Handlers.failure 400 Handlers.NoValidMarkers
  ∧ ∃ wavBuffer,
      Handlers.ipc_generate_wav kMaxLength clk Spec.unparsable_csv
        (JSNumber.of_Z 30) (js "time") [js "name"] (Some path)
      = Handlers.Reply true 0 Handlers.Created (Some wavBuffer)
      ∧ Spec.find_chunk (js "cue ") wavBuffer = Some [0; 0; 0; 0]
      ∧ (∃ data, Spec.find_chunk (js "data") wavBuffer = Some data
                 ∧ Z.of_nat (length data) = (10 * (44100 * 2 * 2))%Z).
Proof.
  intros HkMax Hpath Hjson Hparse.
  assert (Hnone : CsvParser.parseCSVWithSelectedFields Spec.unparsable_csv
                    (JSNumber.of_Z 30) (js "time") [js "name"] = Ok [])
    by (by vm_compute).
  split; [done|]. split; [by eapply POST_no_markers|].
  eexists. split; [by apply ipc_generate_wav_no_markers|].
  assert (Hsize : (Z.of_nat (Spec.file_size Spec.fmt_payload
                     (Spec.bext_payload Desktop clk) (Spec.data_payload [])
                     (Spec.cue_payload []) (Spec.list_payload Desktop []))
                   < 2 ^ 32)%Z).
  { rewrite file_size_wav_size by done. by vm_compute. }
  destruct (find_chunk_wav_file _ _ _ _ _ Hsize) as (Hdata & Hcue & _).
  split; [exact Hcue|]. eexists. split; [exact Hdata|].
  unfold Spec.data_payload. rewrite length_replicate.
  by rewrite Z2Nat.id.
Qed.

Lemma ipc_generate_wav_writes_file_without_markers_witness :
  ∃ wavBuffer,
    Handlers.ipc_generate_wav 4294967296 (Clock 1700000000000 2025 10 3 9 5 7)
      Spec.unparsable_csv (JSNumber.of_Z 30) (js "time") [js "name"]
      (Some (js "markers.wav"))
    = Handlers.Reply true 0 Handlers.Created (Some wavBuffer)
    ∧ Spec.find_chunk (js "cue ") wavBuffer = Some [0; 0; 0; 0].
Proof.
  destruct (ipc_generate_wav_writes_file_without_markers 4294967296
              (Clock 1700000000000 2025 10 3 9 5 7)
              (λ _, Some [js "name"]) (js "[name]") (js "markers.wav"))
    as (_ & _ & wavBuffer & Hreply & Hcue & _); [lia|reflexivity..|].
  exists wavBuffer. split; [exact Hreply | exact Hcue].
Defined.

(** * Further properties of the code *)

(** ** Strings and lines, further *)

(** A decidable fact about given values, by evaluation. *)
Ltac by_decide :=
  match goal with
  | |- ?P => apply (@bool_decide_unpack P _); vm_compute; exact I
  end.

Section TrimFacts.
Import JSString.

Lemma trimEnd_nil_iff (s : jsstring) :
  trimEnd s = [] ↔ Forall (λ c, is_whitespace c = true) s.
Proof.
  induction s as [|c s IH]; simpl; [done|].
  destruct (trimEnd s) eqn:E.
  - destruct (is_whitespace c) eqn:Hc.
    + split; [|done]. intros _. constructor; [done|]. by apply IH.
    + split; [done|]. intros H. inversion H; congruence.
  - split; [done|]. intros H. inversion H as [|?? _ H']. apply IH in H'. done.
Qed.

Lemma trimStart_head (s : jsstring) :
  match trimStart s with
  | [] => True
  | c :: _ => is_whitespace c = false
  end.
Proof.
  induction s as [|c s IH]; simpl; [done|].
  destruct (is_whitespace c) eqn:Hc; [done|]. by rewrite Hc.
Qed.

Lemma trimEnd_cons (c : N) (s : jsstring) :
  is_whitespace c = false → ∃ r, trimEnd (c :: s) = c :: r.
Proof.
  intros Hc. simpl. destruct (trimEnd s); rewrite ?Hc; eauto.
Qed.

Lemma trimEnd_idemp (s : jsstring) : trimEnd (trimEnd s) = trimEnd s.
Proof.
  induction s as [|c s IH]; simpl; [done|].
  destruct (trimEnd s) as [|d r] eqn:E.
  - destruct (is_whitespace c) eqn:Hc; simpl; by rewrite ?Hc.
  - cbn [trimEnd] in IH |- *. fold (trimEnd (d :: r)). rewrite IH. done.
Qed.

Lemma trim_idemp (s : jsstring) : trim (trim s) = trim s.
Proof.
  unfold trim. pose proof (trimStart_head s) as H.
  destruct (trimStart s) as [|c r]; [done|].
  destruct (trimEnd_cons c r H) as [r' E]. rewrite E.
  rewrite (trimStart_id c r' H), <- E. apply trimEnd_idemp.
Qed.

Lemma length_split (sep : N) (s : jsstring) :
  length (split sep s) = S (length (filter (λ c, c = sep) s)).
Proof.
  induction s as [|c s IH]; [done|].
  cbn [split]. destruct (N.eqb_spec c sep) as [->|Hne].
  - rewrite filter_cons_True by done. cbn [length]. by rewrite IH.
  - rewrite filter_cons_False by done.
    destruct (split sep s) eqn:E; [by destruct (split_not_nil sep s)|].
    by rewrite <- IH.
Qed.

Lemma startsWith_app (a b s : jsstring) :
  startsWith (a ++ b) s = true → startsWith a s = true.
Proof.
  revert s. induction a as [|x a IH]; intros [|y s]; simpl; try done.
  intros [-> H]%andb_prop. rewrite (IH _ H). done.
Qed.

Lemma includes_app (a b s : jsstring) :
  includes (a ++ b) s = true → includes a s = true.
Proof.
  induction s as [|y s IH]; cbn [includes].
  - rewrite !orb_false_r. apply startsWith_app.
  - intros [H|H]%orb_prop.
    + by rewrite (startsWith_app _ _ _ H).
    + rewrite (IH H). apply orb_true_r.
Qed.

End TrimFacts.

Section LineFacts.
Import JSString CsvParser Spec.

Lemma fold_parseCSVLine_step_unquoted (line : jsstring) (st : line_state) :
  QUOTE ∉ line → inQuotes st = false →
  fields_of (fold_left parseCSVLine_step line st)
  = values st ++ map trim (prepend (current st) (split COMMA line)).
Proof.
  revert st. induction line as [|c line IH]; intros [vs cur q]; cbn [values current inQuotes].
  - intros _ ->. unfold fields_of. simpl. by rewrite app_nil_r.
  - intros Hq ->. apply not_elem_of_cons in Hq as [Hc Hq].
    cbn [fold_left]. unfold parseCSVLine_step at 2. cbn [values current inQuotes].
    destruct (N.eqb_spec c QUOTE) as [|_]; [congruence|].
    cbn [split]. destruct (N.eqb_spec c COMMA) as [->|Hne]; cbn [andb negb].
    + rewrite IH by done. cbn [values current prepend map].
      destruct (split COMMA line) as [|p ps] eqn:E;
        [by destruct (split_not_nil COMMA line)|].
      cbn [prepend map app]. by rewrite app_nil_r, <- app_assoc.
    + rewrite IH by done. cbn [values current].
      destruct (split COMMA line) as [|p ps] eqn:E;
        [by destruct (split_not_nil COMMA line)|].
      cbn [prepend map]. by rewrite <- app_assoc.
Qed.

Lemma fold_parseCSVLine_step_in_quotes (s : jsstring) (vs : list jsstring)
    (cur : jsstring) :
  QUOTE ∉ s →
  fold_left parseCSVLine_step s (LineState vs cur true)
  = LineState vs (cur ++ s) true.
Proof.
  revert cur. induction s as [|c s IH]; intros cur Hq; cbn [fold_left].
  - by rewrite app_nil_r.
  - apply not_elem_of_cons in Hq as [Hc Hq].
    unfold parseCSVLine_step at 2. cbn [values current inQuotes].
    destruct (N.eqb_spec c QUOTE) as [|_]; [congruence|].
    rewrite andb_false_r, IH by done. by rewrite <- app_assoc.
Qed.

Lemma parseCSVLine_step_values (pre : list jsstring) (st : line_state)
    (c : N) :
  parseCSVLine_step (LineState (pre ++ values st) (current st) (inQuotes st)) c
  = LineState (pre ++ values (parseCSVLine_step st c))
      (current (parseCSVLine_step st c)) (inQuotes (parseCSVLine_step st c)).
Proof.
  unfold parseCSVLine_step. cbn [values current inQuotes].
  destruct (c =? QUOTE); [done|].
  destruct ((c =? COMMA) && negb (inQuotes st)); [|done].
  cbn [values current inQuotes]. by rewrite <- app_assoc.
Qed.

Lemma fold_parseCSVLine_step_values (line : jsstring) (pre : list jsstring)
    (st : line_state) :
  fold_left parseCSVLine_step line
    (LineState (pre ++ values st) (current st) (inQuotes st))
  = LineState (pre ++ values (fold_left parseCSVLine_step line st))
      (current (fold_left parseCSVLine_step line st))
      (inQuotes (fold_left parseCSVLine_step line st)).
Proof.
  revert st. induction line as [|c line IH]; intros st; [done|].
  cbn [fold_left]. by rewrite parseCSVLine_step_values, IH.
Qed.

Lemma inQuotes_fold (line : jsstring) (st : line_state) :
  inQuotes (fold_left parseCSVLine_step line st)
  = xorb (inQuotes st) (Nat.odd (length (filter (λ c, c = QUOTE) line))).
Proof.
  revert st. induction line as [|c line IH]; intros [vs cur q].
  - simpl. by destruct q.
  - cbn [fold_left]. rewrite IH. unfold parseCSVLine_step. cbn [values current inQuotes].
    destruct (N.eqb_spec c QUOTE) as [->|Hne].
    + rewrite filter_cons_True by done. cbn [length inQuotes].
      rewrite Nat.odd_succ, <- Nat.negb_odd. by destruct q, (Nat.odd _).
    + rewrite filter_cons_False by done.
      by destruct ((c =? COMMA) && negb q).
Qed.

Lemma parseCSVLine_fields_trim (line : jsstring) (st : line_state) :
  Forall (λ f, trim f = f) (values st) →
  Forall (λ f, trim f = f) (fields_of (fold_left parseCSVLine_step line st)).
Proof.
  revert st. induction line as [|c line IH]; intros [vs cur q] H.
  - apply Forall_app. split; [done|]. constructor; [apply trim_idemp|done].
  - cbn [fold_left]. apply IH. unfold parseCSVLine_step. cbn [values current inQuotes] in *.
    destruct (c =? QUOTE); [done|].
    destruct ((c =? COMMA) && negb q); [|done].
    apply Forall_app. split; [done|]. constructor; [apply trim_idemp|done].
Qed.

End LineFacts.

(** X1 (main.js, parseCSVLine): a line without a double quote is cut at
    every comma, and each piece is trimmed: the fields are those of
    [line.split(',')], trimmed. *)
Theorem parseCSVLine_unquoted (line : jsstring) :
  QUOTE ∉ line →
  CsvParser.parseCSVLine line
  = map JSString.trim (JSString.split COMMA line).
Proof.
  intros Hq. unfold CsvParser.parseCSVLine.
  change (CsvParser.values ?st ++ [JSString.trim (CsvParser.current ?st)])
    with (Spec.fields_of st).
  rewrite fold_parseCSVLine_step_unquoted by done.
  cbn [CsvParser.values CsvParser.current app].
  destruct (JSString.split COMMA line) eqn:E; [|done].
  by destruct (split_not_nil COMMA line).
Qed.

Lemma parseCSVLine_unquoted_witness :
  CsvParser.parseCSVLine (js " a, b c ,,d")
  = map JSString.trim (JSString.split COMMA (js " a, b c ,,d")).
Proof. apply parseCSVLine_unquoted. by_decide. Defined.

(** X2 (main.js, parseCSVLine): between two double quotes a comma does not
    end the field: a line that is one quoted text is one field, the text
    without its quotes, trimmed. *)
Theorem parseCSVLine_quoted_field (s : jsstring) :
  QUOTE ∉ s →
  CsvParser.parseCSVLine (QUOTE :: s ++ [QUOTE]) = [JSString.trim s].
Proof.
  intros Hq. unfold CsvParser.parseCSVLine. cbn [fold_left].
  rewrite fold_left_app.
  change (CsvParser.parseCSVLine_step _ QUOTE)
    with (CsvParser.LineState [] [] true).
  by rewrite fold_parseCSVLine_step_in_quotes.
Qed.

Lemma parseCSVLine_quoted_field_witness :
  CsvParser.parseCSVLine (QUOTE :: js "Verse 1, take 2" ++ [QUOTE])
  = [JSString.trim (js "Verse 1, take 2")].
Proof. apply parseCSVLine_quoted_field. by_decide. Defined.

(** X3 (main.js, parseCSVLine): a comma that follows an even number of
    double quotes separates two fields: the fields of the line are those of
    the text before the comma followed by those of the text after it. *)
Theorem parseCSVLine_app (a b : jsstring) :
  Nat.even (Spec.quotes a) = true →
  CsvParser.parseCSVLine (a ++ COMMA :: b)
  = CsvParser.parseCSVLine a ++ CsvParser.parseCSVLine b.
Proof.
  intros Ha. unfold CsvParser.parseCSVLine.
  rewrite fold_left_app. cbn [fold_left].
  set (st := fold_left CsvParser.parseCSVLine_step a _).
  assert (Hst : CsvParser.inQuotes st = false).
  { unfold st. rewrite inQuotes_fold. cbn [CsvParser.inQuotes].
    fold (Spec.quotes a). by rewrite <- Nat.negb_even, Ha. }
  assert (E : CsvParser.parseCSVLine_step st COMMA
              = CsvParser.LineState
                  (CsvParser.values st ++ [JSString.trim (CsvParser.current st)])
                  [] false).
  { unfold CsvParser.parseCSVLine_step.
    change (COMMA =? QUOTE) with false. change (COMMA =? COMMA) with true.
    by rewrite Hst. }
  rewrite E.
  pose proof (fold_parseCSVLine_step_values b
                (CsvParser.values st ++ [JSString.trim (CsvParser.current st)])
                (CsvParser.LineState [] [] false)) as H.
  cbn [CsvParser.values CsvParser.current CsvParser.inQuotes] in H.
  rewrite app_nil_r in H. rewrite H.
  cbn [CsvParser.values CsvParser.current]. by rewrite <- !app_assoc.
Qed.

Lemma parseCSVLine_app_witness :
  CsvParser.parseCSVLine (Spec.quoted_line ++ COMMA :: js "d")
  = CsvParser.parseCSVLine Spec.quoted_line ++ CsvParser.parseCSVLine (js "d").
Proof. apply parseCSVLine_app. reflexivity. Defined.

(** X4 (main.js, parseCSVLine): no field starts or ends with white space:
    trimming a field again changes nothing. At least one field is
    returned. *)
Theorem parseCSVLine_fields_trimmed (line : jsstring) :
  CsvParser.parseCSVLine line ≠ []
  ∧ Forall (λ field, JSString.trim field = field)
      (CsvParser.parseCSVLine line).
Proof.
  split.
  - unfold CsvParser.parseCSVLine. by destruct (CsvParser.values _).
  - by apply (parseCSVLine_fields_trim line (CsvParser.LineState [] [] false)).
Qed.

(** ** Rows *)

Section RowFacts.
Import JSString CsvParser Spec.

Lemma fill_row_notin (headers : list jsstring) (i : nat)
    (vals : list jsstring) (row : gmap jsstring jsstring) (key : jsstring) :
  key ∉ headers ∨ key = js "__proto__" →
  fill_row headers i vals row !! key = row !! key.
Proof.
  revert i row. induction headers as [|h headers IH]; intros i row Hk; [done|].
  cbn [fill_row]. rewrite IH.
  - unfold JSObject.set. destruct (decide (h = js "__proto__")); [done|].
    apply lookup_insert_ne. destruct Hk as [Hk| ->]; [|done].
    apply not_elem_of_cons in Hk as [Hk _]. done.
  - destruct Hk as [Hk|Hk]; [|by right].
    left. by apply not_elem_of_cons in Hk as [_ Hk].
Qed.

Lemma fill_row_lookup (headers : list jsstring) (i : nat)
    (vals : list jsstring) (row : gmap jsstring jsstring) (j : nat)
    (h : jsstring) :
  headers !! j = Some h → h ≠ js "__proto__" → h ∉ drop (S j) headers →
  fill_row headers i vals row !! h = Some (cell vals (i + j)).
Proof.
  revert i j row. induction headers as [|h0 headers IH]; intros i j row; [done|].
  destruct j as [|j]; cbn [fill_row].
  - intros [= ->] Hp Hlater. change (drop 1 (h :: headers)) with headers in Hlater.
    rewrite fill_row_notin by (by left).
    unfold JSObject.set. destruct (decide (h = js "__proto__")); [done|].
    rewrite lookup_insert_eq, Nat.add_0_r. unfold cell.
    by destruct (vals !! i) as [[|]|].
  - intros Hj Hp Hlater. rewrite (IH (S i) j) by done.
    by rewrite Nat.add_succ_r.
Qed.

Lemma fill_row_is_Some (headers : list jsstring) (i : nat)
    (vals : list jsstring) (row : gmap jsstring jsstring) (key : jsstring) :
  is_Some (fill_row headers i vals row !! key)
  ↔ is_Some (row !! key) ∨ (key ∈ headers ∧ key ≠ js "__proto__").
Proof.
  revert i row. induction headers as [|h headers IH]; intros i row.
  - cbn [fill_row]. split; [by left|]. intros [H|[H _]]; [done|].
    by apply elem_of_nil in H.
  - cbn [fill_row]. rewrite IH. unfold JSObject.set.
    destruct (decide (h = js "__proto__")) as [->|Hp].
    + rewrite elem_of_cons. tauto.
    + rewrite elem_of_cons.
      destruct (decide (key = h)) as [->|Hne].
      * rewrite lookup_insert_eq. split; [|by left]. intros _. right. eauto.
      * rewrite lookup_insert_ne by done. tauto.
Qed.

Lemma parse_rows_filled (headers : list jsstring) (lines : list jsstring) :
  parse_rows headers lines
  = map (λ l, fill_row headers 0 (parseCSVLine (trim l)) ∅)
        (filter filled lines).
Proof.
  induction lines as [|l lines IH]; [done|].
  cbn [parse_rows]. destruct (truthy (trim l)) eqn:E.
  - rewrite filter_cons_True by done.
    assert (H : (0 <? length (parseCSVLine (trim l)))%nat = true).
    { apply Nat.ltb_lt. unfold parseCSVLine. rewrite length_app. simpl. lia. }
    rewrite H. cbn [map]. by rewrite IH.
  - rewrite filter_cons_False; [done|]. unfold filled. by rewrite E.
Qed.

Lemma parseCSVWithHeaders_lines (csvContent : jsstring) :
  ∃ line0 rest,
    split LF (trim csvContent) = line0 :: rest
    ∧ parseCSVWithHeaders csvContent
      = Ok (parseCSVLine line0,
            map (λ l, fill_row (parseCSVLine line0) 0 (parseCSVLine (trim l)) ∅)
                (filter filled rest)).
Proof.
  unfold parseCSVWithHeaders.
  destruct (split LF (trim csvContent)) as [|line0 rest] eqn:E;
    [by destruct (split_not_nil LF (trim csvContent))|].
  exists line0, rest. split; [done|]. cbn [length Nat.eqb].
  by rewrite parse_rows_filled.
Qed.

End RowFacts.

(** X5 (main.js, parseCSVWithHeaders): the reader never fails; it returns
    one row for each line after the first that is not blank, in order, and
    a row holds, under each header, the field of its line at the position
    of the header, or the empty string when the line has fewer fields. *)
Theorem parseCSVWithHeaders_rows (csvContent : jsstring) :
  ∃ line0 rest rows,
    JSString.split LF (JSString.trim csvContent) = line0 :: rest
    ∧ CsvParser.parseCSVWithHeaders csvContent
      = Ok (CsvParser.parseCSVLine line0, rows)
    ∧ Forall2 (Spec.row_of (CsvParser.parseCSVLine line0))
        (filter Spec.filled rest) rows.
Proof.
  destruct (parseCSVWithHeaders_lines csvContent) as (line0 & rest & E & H).
  eexists line0, rest, _. split; [done|]. split; [exact H|].
  apply Forall2_fmap_r, Forall_Forall2_diag, Forall_forall.
  intros l _ j h Hj Hp Hlater.
  by rewrite (fill_row_lookup _ 0 _ ∅ j h).
Qed.

(** X6 (main.js, parseCSVWithHeaders): the keys of every row are the
    headers, except a header [__proto__], which no row ever holds. *)
Theorem parseCSVWithHeaders_keys (csvContent : jsstring) :
  ∃ headers rows,
    CsvParser.parseCSVWithHeaders csvContent = Ok (headers, rows)
    ∧ Forall (λ row : gmap jsstring jsstring,
                ∀ key, is_Some (row !! key)
                       ↔ key ∈ headers ∧ key ≠ js "__proto__") rows.
Proof.
  destruct (parseCSVWithHeaders_lines csvContent) as (line0 & rest & E & H).
  eexists _, _. split; [exact H|].
  apply Forall_fmap, Forall_forall. intros l _ key. cbn.
  rewrite fill_row_is_Some, lookup_empty. split; [|by right].
  intros [[? [=]]|]; done.
Qed.

(** ** Times written in full *)

Section DecimalFacts.
Import JSString JSNumber JSGlobal CsvParser Spec.


Lemma split_elem (sep : N) (s p : jsstring) :
  p ∈ split sep s → sep ∉ p.
Proof.
  revert p. induction s as [|c s IH]; intros p.
  - intros ->%list_elem_of_singleton. apply not_elem_of_nil.
  - cbn [split]. destruct (N.eqb_spec c sep) as [->|Hne].
    + intros [->|H]%elem_of_cons; [apply not_elem_of_nil|by apply IH].
    + destruct (split sep s) as [|q qs] eqn:E;
        [by destruct (split_not_nil sep s)|].
      intros [->|H]%elem_of_cons.
      * apply not_elem_of_cons. split; [done|]. apply IH. by left.
      * apply IH. by right.
Qed.







End DecimalFacts.

Section TimeFacts.
Import JSString JSNumber JSGlobal CsvParser Spec.




Lemma starts_integer_literal (s : jsstring) (z : Z) :
  integer_literal s = Some z → starts_integer s = true.
Proof.
  intros H. pose proof (isNaN_parseInt s) as E.
  rewrite (parseInt_integer_literal _ _ H) in E.
  by destruct (starts_integer s).
Qed.


Lemma includes_colon (a b : jsstring) :
  includes [COLON] (a ++ COLON :: b) = true.
Proof.
  apply includes_singleton, elem_of_app. right. by left.
Qed.



Lemma elem_of_colons (s : jsstring) : (0 < colons s)%nat ↔ COLON ∈ s.
Proof.
  unfold colons. induction s as [|c s IH].
  - cbn. split; [lia|]. by intros ?%elem_of_nil.
  - rewrite elem_of_cons. destruct (decide (c = COLON)) as [->|Hne].
    + rewrite filter_cons_True by done. cbn [length]. split; [by left|lia].
    + rewrite filter_cons_False by done. rewrite IH.
      split; [by right|]. by intros [?|?].
Qed.

End TimeFacts.







(** X10 (main.js, parseTime): white space around the text is ignored: the
    result for a text is the result for the text trimmed. *)
Theorem parseTime_trim (timeStr : jsstring) (frameRate : number) :
  CsvParser.parseTime (JSString.trim timeStr) frameRate
  = CsvParser.parseTime timeStr frameRate.
Proof. unfold CsvParser.parseTime. by rewrite trim_idemp. Qed.

(** X11 (main.js, parseTime): a text with four colons or more, five parts
    or more, is not a time. *)
Theorem parseTime_too_many_parts (timeStr : jsstring) (frameRate : number) :
  (4 ≤ Spec.colons (JSString.trim timeStr))%nat →
  CsvParser.parseTime timeStr frameRate = None.
Proof.
  intros H. unfold CsvParser.parseTime.
  assert (JSString.includes [COLON] (JSString.trim timeStr) = true) as ->.
  { apply includes_singleton, elem_of_colons. lia. }
  pose proof (length_split COLON (JSString.trim timeStr)) as L.
  fold (Spec.colons (JSString.trim timeStr)) in L.
  destruct (JSString.split COLON _) as [|? [|? [|? [|? [|]]]]];
    cbn [length] in L; solve [done | lia].
Qed.

Lemma parseTime_too_many_parts_witness :
  CsvParser.parseTime (js "1:2:3:4:5") (JSNumber.of_Z 30) = None.
Proof. apply parseTime_too_many_parts. vm_compute. lia. Defined.

(** X12 (main.js, parseTime): the frame rate only matters for a text with
    exactly three colons. *)
Theorem parseTime_frameRate_unused (timeStr : jsstring)
    (frameRate1 frameRate2 : number) :
  Spec.colons (JSString.trim timeStr) ≠ 3%nat →
  CsvParser.parseTime timeStr frameRate1
  = CsvParser.parseTime timeStr frameRate2.
Proof.
  intros H. unfold CsvParser.parseTime.
  pose proof (length_split COLON (JSString.trim timeStr)) as L.
  fold (Spec.colons (JSString.trim timeStr)) in L.
  destruct (JSString.includes _ _); [|done]. cbn [negb].
  destruct (JSString.split COLON _) as [|? [|? [|? [|? [|]]]]];
    cbn [length] in L; solve [done | lia].
Qed.

Lemma parseTime_frameRate_unused_witness :
  CsvParser.parseTime (js "1:30") (JSNumber.of_Z 24)
  = CsvParser.parseTime (js "1:30") (JSNumber.of_Z 60).
Proof. apply parseTime_frameRate_unused. vm_compute. lia. Defined.

(** ** The time column, the frame rate and the analysis *)

Section ColumnFacts.
Import JSString JSNumber JSGlobal CsvParser Spec.

Lemma timeKeywords_names_time (header : jsstring) :
  existsb (λ keyword, includes keyword (toLowerCase header)) timeKeywords
  = names_time header.
Proof.
  unfold timeKeywords, names_time. cbn [existsb].
  set (l := toLowerCase header).
  destruct (includes (js "time") l) eqn:E1; [done|].
  destruct (includes (js "timecode") l) eqn:E2.
  { by rewrite (includes_app (js "time") (js "code") l E2) in E1. }
  destruct (includes (js "timestamp") l) eqn:E3.
  { by rewrite (includes_app (js "time") (js "stamp") l E3) in E1. }
  cbn [orb]. by rewrite !orb_false_r.
Qed.

Lemma detectTimeColumn_loop_find (headers : list jsstring) :
  detectTimeColumn_loop headers = List.find names_time headers.
Proof.
  induction headers as [|h headers IH]; [done|].
  cbn [detectTimeColumn_loop List.find].
  rewrite timeKeywords_names_time. by destruct (names_time h).
Qed.


End ColumnFacts.



(** X14 (lib/csv-parser.ts, detectTimeColumn): the column proposed is the
    first header in which [time], [tc] or [smpte] occurs, in any case, and
    the first header when there is none; the keywords [timecode] and
    [timestamp] add nothing. *)
Theorem detectTimeColumn_first_match (headers : list jsstring) :
  CsvParser.detectTimeColumn headers
  = match List.find Spec.names_time headers with
    | Some header => Some header
    | None => head headers
    end.
Proof.
  unfold CsvParser.detectTimeColumn. by rewrite detectTimeColumn_loop_find.
Qed.

Section AnalysisFacts.
Import JSString JSNumber JSGlobal CsvParser Spec.



End AnalysisFacts.


Section FileNameFacts.
Import JSString FileName.

Lemma is_name_char_replace_invalid (s : jsstring) :
  Forall (λ c, is_name_char c = true) (replace_invalid s).
Proof.
  apply Forall_fmap, Forall_forall. intros c _. cbn.
  by destruct (is_name_char c) eqn:E.
Qed.

Lemma is_name_char_sanitized (s : jsstring) :
  Forall (λ c, is_name_char c = true)
    (trim (replace_invalid s) ++ js "_marker_list").
Proof.
  apply Forall_app. split.
  - apply Forall_forall. intros c Hc%trim_elem. revert c Hc.
    apply Forall_forall, is_name_char_replace_invalid.
  - by_decide.
Qed.

Lemma toLowerCase_app (a b : jsstring) :
  toLowerCase (a ++ b) = toLowerCase a ++ toLowerCase b.
Proof. apply map_app. Qed.

Lemma is_extension_inside (extensions : list jsstring) (c : N)
    (b e : jsstring) :
  Forall (λ x, 46 ∉ x) extensions →
  is_extension extensions (c :: b ++ 46 :: e) = false.
Proof.
  intros Hdot. unfold is_extension. destruct (c =? 46); [|done]. cbn [andb].
  apply not_true_iff_false. intros (x & Hx & Heq)%existsb_exists.
  apply bool_decide_eq_true in Heq. rewrite Forall_forall in Hdot.
  apply list_elem_of_In in Hx. apply (Hdot x Hx). rewrite <- Heq.
  rewrite toLowerCase_app. apply elem_of_app. right. by left.
Qed.

End FileNameFacts.

(** X16 (main.js, generate-wav; app/api/generate-wav/route.ts, POST): the
    file name proposed is always a stem without any character other than
    letters, digits, [_], [-] and white space, followed by [.wav]: it holds
    no path separator, no quote and no other point. *)
Theorem file_names_are_safe (fileNameField firstRowValue : option jsstring)
    (name : jsstring) :
  (∃ stem, FileName.defaultFileName fileNameField firstRowValue
           = stem ++ js ".wav"
           ∧ stem ≠ []
           ∧ Forall (λ c, FileName.is_name_char c = true) stem)
  ∧ (∃ stem, FileName.filename name = stem ++ js ".wav"
             ∧ stem ≠ []
             ∧ Forall (λ c, FileName.is_name_char c = true) stem).
Proof.
  assert (D : ∃ stem, js "Marker-list.wav" = stem ++ js ".wav" ∧ stem ≠ []
                      ∧ Forall (λ c, FileName.is_name_char c = true) stem).
  { exists (js "Marker-list"). split; [done|]. split; [done|by_decide]. }
  assert (S : ∀ s, ∃ stem,
              JSString.trim (FileName.replace_invalid s) ++ js "_marker_list.wav"
              = stem ++ js ".wav" ∧ stem ≠ []
              ∧ Forall (λ c, FileName.is_name_char c = true) stem).
  { intros s. eexists. split; [|split; [|apply (is_name_char_sanitized s)]].
    - by rewrite <- app_assoc.
    - by destruct (JSString.trim _). }
  split.
  - unfold FileName.defaultFileName.
    destruct fileNameField as [f|], firstRowValue as [v|]; try done.
    destruct (JSString.truthy f && JSString.truthy v); [|done].
    destruct (JSString.truthy _); [apply S|done].
  - unfold FileName.filename.
    destruct (JSString.truthy _); [apply S|].
    exists (js "marker_list"). split; [done|]. split; [done|by_decide].
Qed.

(** X17 (main.js, generate-wav; app/api/generate-wav/route.ts, POST): a
    known extension at the end of the name, in any case, is removed, and
    nothing else is: what is left is the text before the last point. *)
Theorem remove_extension_known (extensions : list jsstring)
    (base e : jsstring) :
  Forall (λ x, 46 ∉ x) extensions →
  JSString.toLowerCase e ∈ extensions →
  FileName.remove_extension extensions (base ++ 46 :: e) = base.
Proof.
  intros Hdot He. induction base as [|c b IH].
  - cbn [app FileName.remove_extension].
    assert (FileName.is_extension extensions (46 :: e) = true) as ->; [|done].
    unfold FileName.is_extension. change (46 =? 46) with true. cbn [andb].
    apply existsb_exists. exists (JSString.toLowerCase e).
    split; [by apply list_elem_of_In|by apply bool_decide_eq_true].
  - cbn [app FileName.remove_extension].
    by rewrite is_extension_inside, IH.
Qed.

Lemma remove_extension_known_witness :
  FileName.remove_extension FileName.media_extensions
    (js "Take 1.final" ++ 46 :: js "WAV")
  = js "Take 1.final".
Proof. apply remove_extension_known; by_decide. Defined.

(** ** The start timecode *)

Section StartFacts.
Import JSString JSNumber JSGlobal CsvParser WavGenerator Spec.







Section Large.
Variable String_of_large : Z → jsstring.


End Large.

End StartFacts.



(** ** The chunks of the encoder *)

Section FmtFacts.
Import JSString JSNumber Buffer WavGenerator Spec.

Lemma writeUIntLE_Qeq (n : nat) (q : Q) (z : Z) (off : nat) (buf : buffer) :
  (q == inject_Z z)%Q →
  writeUIntLE n (Fin q) off buf = writeUIntLE n (of_Z z) off buf.
Proof.
  intros Hq. unfold writeUIntLE, out_of_range, gtb, ltb, to_uint, of_Z.
  rewrite (Qleb_comp _ _ Hq _ _ (Qeq_refl _)).
  rewrite (Qleb_comp _ _ (Qeq_refl _) _ _ Hq).
  by rewrite (Qfloor_comp _ _ Hq).
Qed.

Lemma writeUIntLE_at (n : nat) (z : Z) (off : nat) (buf : buffer) :
  (off + n ≤ length buf)%nat → (0 <= z <= 2 ^ (8 * Z.of_nat n) - 1)%Z →
  writeUIntLE n (of_Z z) off buf = Ok (overlay off (le_bytes n z) buf).
Proof.
  intros Hlen Hz. unfold writeUIntLE. rewrite out_of_range_of_Z, to_uint_of_Z.
  destruct (Z.ltb_spec (2 ^ (8 * Z.of_nat n) - 1) z); [lia|].
  destruct (Z.ltb_spec z 0); [lia|]. cbn [orb].
  destruct (Nat.ltb_spec (length buf) (off + n)); [lia|done].
Qed.

Lemma Qeq_blockAlign (c b : Z) :
  (b mod 8 = 0)%Z →
  (inject_Z c * (inject_Z b / inject_Z 8) == inject_Z (c * (b / 8)))%Q.
Proof.
  intros Hb. apply Z.div_exact in Hb; [|done].
  unfold Qeq, Qmult, Qdiv, Qinv, inject_Z. cbn. lia.
Qed.

Lemma Qeq_byteRate (r c b : Z) :
  (b mod 8 = 0)%Z →
  (inject_Z r * (inject_Z c * (inject_Z b / inject_Z 8))
   == inject_Z (r * (c * (b / 8))))%Q.
Proof.
  intros Hb. apply Z.div_exact in Hb; [|done].
  unfold Qeq, Qmult, Qdiv, Qinv, inject_Z. cbn. lia.
Qed.

End FmtFacts.

(** X19 (wav-generator.js, createFmtChunk): for whole parameters that fit
    their fields and a sample size of whole bytes, the sixteen bytes are
    the format tag 1 (PCM), the channels, the sample rate, the byte rate,
    the block size and the bits per sample, little-endian, where the block
    size is channels times bytes per sample and the byte rate is the sample
    rate times the block size. *)
Theorem createFmtChunk_fields (kMaxLength sampleRate numChannels
    bitsPerSample : Z) :
  (16 <= kMaxLength)%Z →
  (0 <= sampleRate)%Z → (0 <= numChannels)%Z →
  (0 <= bitsPerSample <= 65535)%Z → (bitsPerSample mod 8 = 0)%Z →
  (numChannels <= 65535)%Z → (sampleRate <= 4294967295)%Z →
  (numChannels * (bitsPerSample / 8) <= 65535)%Z →
  (sampleRate * (numChannels * (bitsPerSample / 8)) <= 4294967295)%Z →
  WavGenerator.createFmtChunk kMaxLength (JSNumber.of_Z sampleRate)
    (JSNumber.of_Z numChannels) (JSNumber.of_Z bitsPerSample)
  = Ok (Buffer.le_bytes 2 1 ++ Buffer.le_bytes 2 numChannels
        ++ Buffer.le_bytes 4 sampleRate
        ++ Buffer.le_bytes 4 (sampleRate * (numChannels * (bitsPerSample / 8)))
        ++ Buffer.le_bytes 2 (numChannels * (bitsPerSample / 8))
        ++ Buffer.le_bytes 2 bitsPerSample).
Proof.
  intros Hk Hr Hc Hb Hb8 Hc' Hr' Ha Hbr.
  unfold WavGenerator.createFmtChunk.
  change (JSNumber.of_Z 16) with (WavGenerator.of_nat 16).
  rewrite alloc_of_nat.
  destruct (Z.leb_spec (Z.of_nat 16) kMaxLength); [|lia].
  cbn [bind JSNumber.mul JSNumber.div JSNumber.of_Z].
  change (Qeq_bool (inject_Z 8) 0) with false. cbv iota.
  unfold Buffer.writeUInt16LE, Buffer.writeUInt32LE.
  assert (B : (0 <= bitsPerSample / 8)%Z) by (apply Z.div_pos; lia).
  fold (JSNumber.of_Z 1) (JSNumber.of_Z numChannels) (JSNumber.of_Z sampleRate)
       (JSNumber.of_Z bitsPerSample).
  store_cbn.
  repeat (rewrite writeUIntLE_at by (cbn [length]; first [lia | nia]);
          store_cbn).
  rewrite (writeUIntLE_Qeq _ _ _ _ _ (Qeq_byteRate sampleRate numChannels _ Hb8)).
  rewrite writeUIntLE_at by (cbn [length]; first [lia | nia]). store_cbn.
  rewrite (writeUIntLE_Qeq _ _ _ _ _ (Qeq_blockAlign numChannels _ Hb8)).
  repeat (rewrite writeUIntLE_at by (cbn [length]; first [lia | nia]);
          store_cbn).
  done.
Qed.

Lemma createFmtChunk_fields_witness :
  WavGenerator.createFmtChunk 4294967296 (JSNumber.of_Z 44100)
    (JSNumber.of_Z 2) (JSNumber.of_Z 16)
  = Ok (Buffer.le_bytes 2 1 ++ Buffer.le_bytes 2 2
        ++ Buffer.le_bytes 4 44100
        ++ Buffer.le_bytes 4 (44100 * (2 * (16 / 8)))
        ++ Buffer.le_bytes 2 (2 * (16 / 8)) ++ Buffer.le_bytes 2 16).
Proof. apply createFmtChunk_fields; by vm_compute. Defined.

Section BextFacts.
Import JSString JSNumber Buffer WavGenerator Spec.

Lemma length_field (n : nat) (s : jsstring) : length (field n s) = n.
Proof.
  unfold field. rewrite length_app, length_replicate.
  pose proof (length_utf8_fit n (code_points s)). lia.
Qed.

Lemma write_field (s : jsstring) (off n : nat) (pre rest : list N) :
  off = length pre →
  write s off (Some n) (pre ++ replicate n 0 ++ rest)
  = Ok (pre ++ field n s ++ rest).
Proof.
  intros ->. unfold write. rewrite !length_app, length_replicate.
  destruct (Nat.ltb_spec (length pre + (n + length rest)) (length pre));
    [lia|].
  destruct (Nat.ltb_spec (length pre + (n + length rest)) n); [lia|].
  replace (Nat.min n (length pre + (n + length rest) - length pre)) with n
    by lia.
  rewrite <- (Nat.add_0_r (length pre)) at 1. rewrite overlay_tail.
  do 2 f_equal. unfold overlay, field. rewrite take_0. cbn [app Nat.add].
  pose proof (length_utf8_fit n (code_points s)) as L.
  rewrite <- app_assoc. f_equal.
  rewrite drop_app_le by (by rewrite length_replicate).
  by rewrite drop_replicate.
Qed.

Lemma createBextChunk_fields (v : variant) (clk : clock) :
  createBextChunk 602 v clk = Ok (bext_fields v clk).
Proof.
  unfold createBextChunk. change (of_Z 602) with (of_nat 602).
  rewrite alloc_of_nat.
  change (Z.of_nat 602 <=? 602)%Z with true. cbv iota. cbn [bind].
  fold (description v) (originator v) (originatorRef clk)
       (originationDate clk) (originationTime clk).
  change (replicate 602 0)
    with ([] ++ replicate 256 0 ++ replicate 32 0 ++ replicate 32 0
          ++ replicate 10 0 ++ replicate 8 0 ++ replicate 264 0).
  rewrite write_field by done. cbn [bind].
  rewrite (app_assoc []), write_field
    by (by rewrite !length_app, !length_field).
  cbn [bind].
  rewrite (app_assoc (_ ++ _)), write_field
    by (by rewrite !length_app, !length_field).
  cbn [bind].
  rewrite (app_assoc (_ ++ _)), write_field
    by (by rewrite !length_app, !length_field).
  cbn [bind].
  rewrite (app_assoc (_ ++ _)), write_field
    by (by rewrite !length_app, !length_field).
  cbn [bind].
  rewrite (app_assoc (_ ++ _)).
  set (pre := (_ ++ field 8 _)).
  assert (Lpre : length pre = 338%nat)
    by (unfold pre; by rewrite !length_app, !length_field).
  unfold writeUInt32LE, writeUInt16LE.
  rewrite (writeUIntLE_tail 4 _ 338 pre _ 0)
    by (rewrite ?Lpre, ?length_replicate; lia).
  change (out_of_range (of_Z 0) _) with false. cbv iota. cbn [bind].
  change (overlay 0 (le_bytes 4 (to_uint (of_Z 0))) (replicate 264 0))
    with (replicate 264 0).
  rewrite (writeUIntLE_tail 4 _ 342 pre _ 4)
    by (rewrite ?Lpre, ?length_replicate; lia).
  change (out_of_range (of_Z 0) _) with false. cbv iota. cbn [bind].
  change (overlay 4 (le_bytes 4 (to_uint (of_Z 0))) (replicate 264 0))
    with (replicate 264 0).
  rewrite (writeUIntLE_tail 2 _ 346 pre _ 8)
    by (rewrite ?Lpre, ?length_replicate; lia).
  change (out_of_range (of_Z 2) _) with false. cbv iota.
  change (overlay 8 (le_bytes 2 (to_uint (of_Z 2))) (replicate 264 0))
    with (replicate 8 0 ++ [2; 0] ++ replicate 254 0).
  unfold pre, bext_fields. by rewrite <- !app_assoc.
Qed.

Lemma bext_payload_fields (v : variant) (clk : clock) :
  bext_payload v clk = bext_fields v clk.
Proof. unfold bext_payload. by rewrite createBextChunk_fields. Qed.

End BextFacts.

Section ClockFacts.
Import JSString JSNumber Buffer WavGenerator Spec.

Lemma bext_fields_clock (v : variant) (clk : clock) :
  ∃ mid, length mid = 50%nat
         ∧ bext_fields v clk
           = (field 256 (description v) ++ field 32 (originator v))
             ++ mid ++ replicate 8 0 ++ [2; 0] ++ replicate 254 0.
Proof.
  exists (field 32 (originatorRef clk) ++ field 10 (originationDate clk)
          ++ field 8 (originationTime clk)).
  split; [by rewrite !length_app, !length_field|].
  unfold bext_fields. by rewrite <- !app_assoc.
Qed.

Lemma wav_file_bext (fmt bext data cue lst : list N) :
  ∃ tail,
    wav_file fmt bext data cue lst
    = (riff_header (file_size fmt bext data cue lst)
       ++ chunk_header (js "fmt ") (length fmt) ++ fmt
       ++ chunk_header (js "bext") (length bext)) ++ bext ++ tail
    ∧ tail = chunk_header (js "data") (length data) ++ data
             ++ chunk_header (js "cue ") (length cue) ++ cue
             ++ chunk_header (js "LIST") (length lst) ++ lst.
Proof. eexists. split; [|done]. unfold wav_file. by rewrite <- !app_assoc. Qed.

End ClockFacts.

(** X20 (wav-generator.js, createBextChunk): the [bext] chunk is the
    description in 256 bytes, the originator in 32, the originator
    reference in 32, the date in 10 and the time in 8, each text cut to the
    characters that fit whole and filled up with zeros, then a time
    reference of eight zero bytes, the version 2 and 254 zero bytes. *)
Theorem createBextChunk_layout (kMaxLength : Z) (v : variant) (clk : clock) :
  (602 <= kMaxLength)%Z →
  WavGenerator.createBextChunk kMaxLength v clk = Ok (Spec.bext_fields v clk).
Proof.
  intros Hk. rewrite createBextChunk_exact, bext_payload_fields.
  by destruct (Z.leb_spec 602 kMaxLength); [|lia].
Qed.

Lemma createBextChunk_layout_witness :
  WavGenerator.createBextChunk 602 Web (Clock 1700000000000 2025 10 3 9 5 7)
  = Ok (Spec.bext_fields Web (Clock 1700000000000 2025 10 3 9 5 7)).
Proof. apply createBextChunk_layout. lia. Defined.

(** X21 (wav-generator.js, generateWavWithMarkers and createBextChunk): the
    clock has no part in whether a marker list can be encoded, and two
    files encoded from the same markers at different times have the same
    length and differ at most in the 50 bytes from offset 332 on, the
    originator reference, the date and the time of the [bext] chunk. *)
Theorem generateWavWithMarkers_clock (kMaxLength : Z) (v : variant)
    (clk1 clk2 : clock) (markers : list CsvParser.marker) :
  match WavGenerator.generateWavWithMarkers kMaxLength v clk1 markers,
        WavGenerator.generateWavWithMarkers kMaxLength v clk2 markers with
  | Ok bytes1, Ok bytes2 =>
      length bytes1 = length bytes2
      ∧ take 332 bytes1 = take 332 bytes2
      ∧ drop 382 bytes1 = drop 382 bytes2
  | Err e1, Err e2 => e1 = e2
  | _, _ => False
  end.
Proof.
  rewrite !generateWavWithMarkers_exact.
  destruct (Spec.encodable kMaxLength v markers); [|done].
  set (fmt := Spec.fmt_payload). set (data := Spec.data_payload markers).
  set (cue := Spec.cue_payload markers). set (lst := Spec.list_payload v markers).
  assert (F : ∀ clk, Spec.file_size fmt (Spec.bext_payload v clk) data cue lst
                     = Spec.file_size fmt (Spec.bext_payload v clk1) data cue lst).
  { intros clk. unfold Spec.file_size. by rewrite !length_bext_payload. }
  split; [by rewrite !length_wav_file, (F clk2)|].
  destruct (wav_file_bext fmt (Spec.bext_payload v clk1) data cue lst)
    as (tail & -> & Ht).
  destruct (wav_file_bext fmt (Spec.bext_payload v clk2) data cue lst)
    as (tail' & -> & Ht').
  rewrite <- Ht in Ht'. subst tail'. rewrite (F clk2), !length_bext_payload.
  set (head := Spec.riff_header _ ++ _).
  assert (Lh : length head = 44%nat).
  { unfold head. rewrite !length_app, length_riff_header.
    by rewrite (length_chunk_header (js "fmt ")),
      (length_chunk_header (js "bext")). }
  rewrite !bext_payload_fields.
  destruct (bext_fields_clock v clk1) as (mid1 & L1 & ->).
  destruct (bext_fields_clock v clk2) as (mid2 & L2 & ->).
  set (front := Spec.field 256 _ ++ Spec.field 32 _).
  assert (Lf : length front = 288%nat)
    by (unfold front; by rewrite length_app, !length_field).
  set (back := replicate 8 0 ++ [2; 0] ++ replicate 254 0).
  assert (E : ∀ mid, length mid = 50%nat →
            take 332 (head ++ (front ++ mid ++ back) ++ tail) = head ++ front
            ∧ drop 382 (head ++ (front ++ mid ++ back) ++ tail) = back ++ tail).
  { intros mid Lm. split.
    - rewrite <- !app_assoc, (app_assoc head front).
      by rewrite take_app_length' by (rewrite length_app, Lh, Lf; lia).
    - rewrite <- !app_assoc, (app_assoc head front), (app_assoc (head ++ front)).
      by rewrite drop_app_length' by (rewrite !length_app, Lh, Lf, Lm; lia). }
  destruct (E mid1 L1) as [-> ->]. by destruct (E mid2 L2) as [-> ->].
Qed.

Section CueFieldFacts.
Import JSString JSNumber Buffer CsvParser WavGenerator Spec.



Lemma cues_fit_lookup (index : nat) (markers : list marker) (i : nat)
    (m : marker) :
  cues_fit index markers = true → markers !! i = Some m →
  uint32 (samplePosition m) = true.
Proof.
  revert index i. induction markers as [|m0 markers IH]; intros index i;
    [done|].
  cbn [cues_fit]. rewrite !andb_true_iff. intros [[_ Hpos] Hfit].
  destruct i as [|i]; [by intros [= <-]|]. by apply (IH (S index) i).
Qed.

Lemma samplePosition_mono (a b : marker) :
  time_le a b →
  uint32 (samplePosition a) = true → uint32 (samplePosition b) = true →
  (to_uint (samplePosition a) <= to_uint (samplePosition b))%Z.
Proof.
  unfold time_le, samplePosition.
  destruct (time a) as [| | |x], (time b) as [| | |y]; try done.
  intros Hle _ _. cbn [mul of_Z floor to_uint]. rewrite !Qfloor_Z.
  apply Qfloor_resp_le, Qmult_le_compat_r; done.
Qed.

Lemma StronglySorted_lookup {A} (R : A → A → Prop) (l : list A) (i j : nat)
    (x y : A) :
  StronglySorted R l → (i < j)%nat → l !! i = Some x → l !! j = Some y →
  R x y.
Proof.
  intros Hs. revert i j. induction Hs as [|a l Hs IH Hall]; intros i j Hij;
    [done|].
  destruct j as [|j]; [lia|]. destruct i as [|i].
  - intros [= <-] Hy. rewrite Forall_forall in Hall.
    apply Hall. by eapply list_elem_of_lookup_2.
  - apply IH. lia.
Qed.

Lemma last_lookup_Some {A} (l : list A) (x : A) :
  last l = Some x → l !! (length l - 1)%nat = Some x.
Proof. rewrite last_lookup. by replace (pred (length l)) with (length l - 1)%nat by lia. Qed.

Lemma samplePosition_inside (q : Q) :
  (Qfloor (q * inject_Z 44100) < (Qceiling q + 1) * 44100)%Z.
Proof.
  apply Z.le_lt_trans with (Qceiling q * 44100)%Z; [|lia].
  rewrite Zle_Qle, inject_Z_mult.
  apply Qle_trans with (q * inject_Z 44100)%Q; [apply Qfloor_le|].
  apply Qmult_le_compat_r; [apply Qle_ceiling|done].
Qed.

End CueFieldFacts.

Section CueOrderFacts.
Import JSString JSNumber Buffer CsvParser WavGenerator Spec.

Lemma encodable_output (kMaxLength : Z) (v : variant) (clk : clock)
    (markers : list marker) :
  encodable kMaxLength v markers = true →
  ∃ bytes,
    generateWavWithMarkers kMaxLength v clk markers = Ok bytes
    ∧ find_chunk (js "data") bytes = Some (data_payload markers)
    ∧ find_chunk (js "cue ") bytes = Some (cue_payload markers)
    ∧ find_chunk (js "LIST") bytes = Some (list_payload v markers)
    ∧ (0 <= data_size markers)%Z
    ∧ cues_fit 0 markers = true.
Proof.
  intros E. eexists. split.
  { rewrite generateWavWithMarkers_exact, E. done. }
  assert (H : generateWavWithMarkers kMaxLength v clk markers
              = Ok (wav_file fmt_payload (bext_payload v clk)
                      (data_payload markers) (cue_payload markers)
                      (list_payload v markers)))
    by (by rewrite generateWavWithMarkers_exact, E).
  apply generateWavWithMarkers_Ok in H as (_ & Hsize & Hd & Hc).
  destruct (find_chunk_wav_file _ _ _ _ _ Hsize) as (-> & -> & ->). done.
Qed.

Lemma length_data_payload (markers : list marker) :
  (0 <= data_size markers)%Z →
  Z.of_nat (length (data_payload markers)) = data_size markers.
Proof.
  intros H. unfold data_payload. rewrite length_replicate. by rewrite Z2Nat.id.
Qed.

Lemma to_uint_samplePosition (m : marker) (q : Q) :
  time m = Fin q → to_uint (samplePosition m) = Qfloor (q * inject_Z 44100).
Proof.
  intros H. unfold samplePosition. rewrite H.
  cbn [mul of_Z floor to_uint]. by rewrite Qfloor_Z.
Qed.

Lemma data_size_last (markers : list marker) (m : marker) :
  last markers = Some m → (0 <= data_size markers)%Z →
  ∃ q, time m = Fin q ∧ data_size markers = ((Qceiling q + 1) * 176400)%Z.
Proof.
  unfold data_size, duration_seconds. intros -> H.
  destruct (time m) as [| | |q]; try done. by exists q.
Qed.

Lemma sorted_positions (markers : list marker) (i j : nat) :
  cues_fit 0 markers = true → (0 <= data_size markers)%Z →
  StronglySorted time_le markers → (i ≤ j < length markers)%nat →
  ∃ p p', cue_position i (cue_payload markers) = Some p
          ∧ cue_position j (cue_payload markers) = Some p'
          ∧ (0 <= p <= p')%Z
          ∧ (4 * p' < Z.of_nat (length (data_payload markers)))%Z.
Proof.
  intros Hfit Hsize Hs [Hij Hj].
  destruct (lookup_lt_is_Some_2 markers j Hj) as [mj Hmj].
  destruct (lookup_lt_is_Some_2 markers i ltac:(lia)) as [mi Hmi].
  destruct (last markers) as [ml|] eqn:Hl;
    [|apply last_None in Hl; subst markers; cbn in Hj; lia].
  destruct (data_size_last _ _ Hl Hsize) as (q & Hq & Hds).
  pose proof (last_lookup_Some _ _ Hl) as Hml.
  pose proof (cues_fit_lookup _ _ _ _ Hfit Hmi) as Ui.
  pose proof (cues_fit_lookup _ _ _ _ Hfit Hmj) as Uj.
  pose proof (cues_fit_lookup _ _ _ _ Hfit Hml) as Ul.
  eexists _, _.
  split; [by apply cue_position_payload|].
  split; [by apply cue_position_payload|]. split; [split|].
  - by apply uint32_to_uint.
  - destruct (decide (i = j)) as [->|Hne].
    + rewrite Hmi in Hmj. by injection Hmj as ->.
    + apply samplePosition_mono; [|done..].
      apply (StronglySorted_lookup _ markers i j); [done|lia|done..].
  - rewrite length_data_payload, Hds by done.
    pose proof (samplePosition_inside q) as Hin.
    rewrite <- (to_uint_samplePosition ml q Hq) in Hin.
    assert (to_uint (samplePosition mj) <= to_uint (samplePosition ml))%Z;
      [|lia].
    destruct (decide (j = length markers - 1)%nat) as [->|Hne].
    + rewrite Hml in Hmj. by injection Hmj as ->.
    + apply samplePosition_mono; [|done..].
      apply (StronglySorted_lookup _ markers j (length markers - 1));
        [done|lia|done..].
Qed.

End CueOrderFacts.



(** X23 (wav-generator.js, generateWavWithMarkers and createCueChunk): for
    markers in the order of their offsets, the sample positions in the
    [cue ] chunk do not decrease, and every one of them lies inside the
    silence of the [data] chunk, which has four bytes for each sample. *)
Theorem cue_positions_sorted_inside (kMaxLength : Z) (v : variant)
    (clk : clock) (markers : list CsvParser.marker) :
  Spec.encodable kMaxLength v markers = true →
  StronglySorted Spec.time_le markers →
  ∃ bytes data cue,
    WavGenerator.generateWavWithMarkers kMaxLength v clk markers = Ok bytes
    ∧ Spec.find_chunk (js "data") bytes = Some data
    ∧ Spec.find_chunk (js "cue ") bytes = Some cue
    ∧ ∀ i j, (i ≤ j < length markers)%nat →
        ∃ p p', Spec.cue_position i cue = Some p
                ∧ Spec.cue_position j cue = Some p'
                ∧ (0 <= p <= p')%Z
                ∧ (4 * p' < Z.of_nat (length data))%Z.
Proof.
  intros E Hs.
  destruct (encodable_output kMaxLength v clk markers E)
    as (bytes & Hb & Hd & Hc & _ & Hsize & Hfit).
  exists bytes, (Spec.data_payload markers), (Spec.cue_payload markers).
  split; [done|]. split; [done|]. split; [done|].
  intros i j Hij. by apply sorted_positions.
Qed.

Lemma cue_positions_sorted_inside_witness :
  ∃ bytes data cue,
    WavGenerator.generateWavWithMarkers 4294967296 Desktop
      (Clock 1700000000000 2025 10 3 9 5 7) Spec.scenario_markers = Ok bytes
    ∧ Spec.find_chunk (js "data") bytes = Some data
    ∧ Spec.find_chunk (js "cue ") bytes = Some cue
    ∧ ∀ i j, (i ≤ j < length Spec.scenario_markers)%nat →
        ∃ p p', Spec.cue_position i cue = Some p
                ∧ Spec.cue_position j cue = Some p'
                ∧ (0 <= p <= p')%Z
                ∧ (4 * p' < Z.of_nat (length data))%Z.
Proof.
  apply cue_positions_sorted_inside; [by vm_compute|].
  repeat (constructor; try (by vm_compute)).
Defined.

(** X24 (wav-generator.js, createCueChunk): a marker before the start of
    the file, at an offset below zero, makes the encoder throw: its sample
    position does not fit the unsigned field. *)
Theorem generateWavWithMarkers_negative_offset (kMaxLength : Z) (v : variant)
    (clk : clock) (markers : list CsvParser.marker) (m : CsvParser.marker)
    (q : Q) :
  m ∈ markers → CsvParser.time m = Fin q → (q < 0)%Q →
  WavGenerator.generateWavWithMarkers kMaxLength v clk markers
  = Err RangeError.
Proof.
  intros Hm Hq Hneg. rewrite generateWavWithMarkers_exact.
  destruct (Spec.encodable kMaxLength v markers) eqn:E; [|done].
  destruct (encodable_output kMaxLength v clk markers E)
    as (_ & _ & _ & _ & _ & _ & Hfit).
  apply list_elem_of_lookup_1 in Hm as [i Hi].
  pose proof (cues_fit_lookup _ _ _ _ Hfit Hi) as U.
  apply uint32_to_uint in U. rewrite (to_uint_samplePosition m q Hq) in U.
  destruct U as [U _]. rewrite Zle_Qle in U.
  pose proof (Qle_trans _ _ _ U (Qfloor_le _)) as H.
  assert (q * inject_Z 44100 < 0)%Q; [|by apply Qlt_not_le in H].
  rewrite <- (Qmult_0_l (inject_Z 44100)). by apply Qmult_lt_compat_r.
Qed.

Lemma generateWavWithMarkers_negative_offset_witness :
  WavGenerator.generateWavWithMarkers 4294967296 Desktop
    (Clock 1700000000000 2025 10 3 9 5 7)
    [CsvParser.Marker (Fin (-1 # 2)) (js "a"); CsvParser.Marker (Fin 3) (js "b")]
  = Err RangeError.
Proof.
  apply (generateWavWithMarkers_negative_offset _ _ _ _
           (CsvParser.Marker (Fin (-1 # 2)) (js "a")) (-1 # 2));
    [by left | reflexivity | reflexivity].
Defined.

(** X25 (wav-generator.js, generateWavWithMarkers): when the last marker is
    later than 24346 seconds, 6 h 45 min 46 s, the encoder throws, whatever
    the size of buffer the engine allows: the size of the file does not fit
    the 32 bits of the RIFF header. *)
Theorem generateWavWithMarkers_too_long (kMaxLength : Z) (v : variant)
    (clk : clock) (markers : list CsvParser.marker) (m : CsvParser.marker)
    (q : Q) :
  last markers = Some m → CsvParser.time m = Fin q → (24346 < q)%Q →
  WavGenerator.generateWavWithMarkers kMaxLength v clk markers
  = Err RangeError.
Proof.
  intros Hl Hq Hlate. rewrite generateWavWithMarkers_exact.
  assert (H : (4294967295 < Spec.wav_size v markers)%Z).
  { unfold Spec.wav_size, Spec.data_size, Spec.duration_seconds.
    rewrite Hl, Hq.
    assert (24346 < Qceiling q)%Z; [|lia].
    rewrite Zlt_Qlt. eapply Qlt_le_trans; [exact Hlate|apply Qle_ceiling]. }
  unfold Spec.encodable.
  destruct (Z.leb_spec (Spec.wav_size v markers) 4294967295); [lia|].
  by rewrite andb_false_r.
Qed.

Lemma generateWavWithMarkers_too_long_witness :
  WavGenerator.generateWavWithMarkers 4294967296 Web
    (Clock 1700000000000 2025 10 3 9 5 7)
    [CsvParser.Marker (Fin 0) (js "a"); CsvParser.Marker (Fin 36000) (js "b")]
  = Err RangeError.
Proof.
  apply (generateWavWithMarkers_too_long _ _ _ _
           (CsvParser.Marker (Fin 36000) (js "b")) 36000); reflexivity.
Defined.

Section LabelTextFacts.
Import JSString JSNumber Buffer CsvParser WavGenerator Spec.

Lemma length_stored_text (v : variant) (label : jsstring) :
  length (stored_text v label) = paddedLength label.
Proof.
  unfold stored_text, labl_text.
  rewrite length_insert, length_app, length_replicate.
  pose proof (paddedLength_bounds label). unfold byteLength in *. lia.
Qed.

Lemma labl_chunk_chunk (v : variant) (id : nat) (label : jsstring) :
  labl_chunk v id label
  = chunk_header (js "labl")
      (length (le_bytes 4 (Z.of_nat id) ++ stored_text v label))
    ++ le_bytes 4 (Z.of_nat id) ++ stored_text v label.
Proof.
  rewrite length_app, length_le_bytes, length_stored_text.
  unfold labl_chunk, labl_header, chunk_header, stored_text.
  by rewrite <- !app_assoc.
Qed.


Lemma utf8_of_code_point_facts (cp : N) :
  (cp ≠ 0 → 0 ∉ utf8_of_code_point cp)
  ∧ (128 ≤ cp → (2 ≤ length (utf8_of_code_point cp))%nat).
Proof.
  unfold utf8_of_code_point.
  destruct (N.ltb_spec cp 128) as [L1|L1];
    [|destruct (N.ltb_spec cp 2048) as [L2|L2];
      [|destruct (N.ltb_spec cp 65536) as [L3|L3]]].
  - split; [|lia]. intros Hne Hz%list_elem_of_singleton. congruence.
  - split; [|cbn; lia]. intros _ Hz.
    repeat (apply elem_of_cons in Hz as [Hz|Hz];
            [symmetry in Hz; apply N.eq_add_0 in Hz as [Hz _];
             discriminate Hz|]).
    by apply elem_of_nil in Hz.
  - split; [|cbn; lia]. intros _ Hz.
    repeat (apply elem_of_cons in Hz as [Hz|Hz];
            [symmetry in Hz; apply N.eq_add_0 in Hz as [Hz _];
             discriminate Hz|]).
    by apply elem_of_nil in Hz.
  - split; [|cbn; lia]. intros _ Hz.
    repeat (apply elem_of_cons in Hz as [Hz|Hz];
            [symmetry in Hz; apply N.eq_add_0 in Hz as [Hz _];
             discriminate Hz|]).
    by apply elem_of_nil in Hz.
Qed.

Lemma utf8_facts (s : jsstring) :
  (0 ∉ s → 0 ∉ utf8 s)
  ∧ (Exists (λ c, 128 ≤ c) s → (length s < byteLength s)%nat).
Proof.
  unfold byteLength, utf8.
  assert (H : ∀ n (s : jsstring), (length s ≤ n)%nat →
    (0 ∉ s → 0 ∉ flat_map utf8_of_code_point (code_points s))
    ∧ (Exists (λ c, 128 ≤ c) s →
       (length s < length (flat_map utf8_of_code_point (code_points s)))%nat));
    [|by apply (H (length s))].
  clear s. induction n as [|n IH]; intros [|c r] Hn; cbn [length] in Hn.
  - split; [done|]. by intros ?%Exists_nil.
  - lia.
  - split; [done|]. by intros ?%Exists_nil.
  - cbn [code_points].
    pose proof (length_le_byteLength r) as Lr. unfold byteLength, utf8 in Lr.
    destruct (is_high c) eqn:Eh.
    + destruct r as [|d r'].
      * cbn [flat_map app]. split; [|cbn; lia]. intros _.
        rewrite app_nil_r. by apply utf8_of_code_point_facts.
      * destruct (is_low d) eqn:El; cbn [flat_map].
        -- set (cp := 65536 + (c - 55296) * 1024 + (d - 56320)).
           destruct (IH r' ltac:(cbn [length] in Hn; lia)) as [IH0 _].
           pose proof (length_le_byteLength r') as Lr'.
           unfold byteLength, utf8 in Lr'.
           destruct (utf8_of_code_point_facts cp) as [F0 F1].
           assert (Hcp : 65536 ≤ cp) by (unfold cp; lia).
           assert (L4 : length (utf8_of_code_point cp) = 4%nat).
           { unfold utf8_of_code_point.
             destruct (N.ltb_spec cp 128); [lia|].
             destruct (N.ltb_spec cp 2048); [lia|].
             destruct (N.ltb_spec cp 65536); [lia|]. done. }
           split.
           ++ intros H0. rewrite !not_elem_of_cons in H0.
              destruct H0 as (_ & _ & H0).
              rewrite not_elem_of_app. split; [apply F0; lia|by apply IH0].
           ++ intros _. rewrite length_app, L4. cbn [length]. lia.
        -- destruct (IH (d :: r') ltac:(lia)) as [IH0 _].
           destruct (utf8_of_code_point_facts 65533) as [F0 F1].
           split.
           ++ intros H0. rewrite not_elem_of_cons in H0. destruct H0 as [_ H0].
              rewrite not_elem_of_app. split; [by apply F0|by apply IH0].
           ++ intros _. rewrite length_app. specialize (F1 ltac:(lia)).
              cbn [length] in *. lia.
    + destruct (IH r ltac:(lia)) as [IH0 IH1].
      destruct (is_low c) eqn:El; cbn [flat_map].
      * destruct (utf8_of_code_point_facts 65533) as [F0 F1].
        split.
        -- intros H0. rewrite not_elem_of_cons in H0. destruct H0 as [_ H0].
           rewrite not_elem_of_app. split; [by apply F0|by apply IH0].
        -- intros _. rewrite length_app. specialize (F1 ltac:(lia)).
           cbn [length]. lia.
      * destruct (utf8_of_code_point_facts c) as [F0 F1].
        pose proof (length_utf8_of_code_point c) as L1.
        split.
        -- intros H0. rewrite not_elem_of_cons in H0. destruct H0 as [Hc H0].
           rewrite not_elem_of_app. split; [apply F0; congruence|by apply IH0].
        -- intros [Hc|Hr]%Exists_cons; rewrite length_app; cbn [length].
           ++ specialize (F1 Hc). lia.
           ++ specialize (IH1 Hr). lia.
Qed.

Lemma c_string_insert (bs zs : list N) (k : nat) :
  0 ∉ bs → (k ≤ length bs)%nat →
  c_string (<[k := 0]> (bs ++ 0 :: zs)) = take k bs.
Proof.
  revert k. induction bs as [|b bs IH]; intros k H0 Hk.
  - cbn in Hk. by replace k with 0%nat by lia.
  - apply not_elem_of_cons in H0 as [Hb H0].
    destruct k as [|k]; [done|]. cbn [app insert list_insert c_string take].
    destruct (N.eqb_spec b 0); [congruence|].
    f_equal. apply IH; [done|]. cbn in Hk. lia.
Qed.

Lemma c_string_stored_text (v : variant) (label : jsstring) :
  0 ∉ label →
  c_string (stored_text v label) = take (terminator_index v label) (utf8 label).
Proof.
  intros H0. unfold stored_text, labl_text.
  pose proof (paddedLength_bounds label) as [[Hp _] _].
  replace (paddedLength label - byteLength label)%nat
    with (S (paddedLength label - byteLength label - 1)) by lia.
  cbn [replicate]. apply c_string_insert; [by apply utf8_facts|].
  destruct v; cbn [terminator_index]; [apply length_le_byteLength|done].
Qed.

Lemma length_labl_chunks_even (v : variant) (index : nat)
    (markers : list marker) :
  Nat.even (length (concat (labl_chunks v index markers))) = true.
Proof.
  revert index. induction markers as [|m markers IH]; intros index; [done|].
  cbn [labl_chunks concat]. rewrite length_app, labl_chunk_chunk.
  rewrite !length_app, length_chunk_header, length_le_bytes,
    length_stored_text by done.
  destruct (paddedLength_bounds (name m)) as [_ Hp].
  specialize (IH (S index)).
  rewrite Nat.even_spec in IH |- *. destruct IH as [a Ha].
  apply Nat.Div0.mod_divides in Hp as [c Hc].
  exists (a + 6 + c)%nat. lia.
Qed.

Lemma length_list_payload_even (v : variant) (markers : list marker) :
  Nat.even (length (list_payload v markers)) = true.
Proof.
  unfold list_payload. rewrite length_app, Nat.even_add.
  by rewrite length_labl_chunks_even.
Qed.

End LabelTextFacts.

Section ListWalkFacts.
Import JSString JSNumber Buffer CsvParser WavGenerator Spec.



Lemma labl_subchunks_even (v : variant) (index : nat)
    (markers : list marker) :
  Forall (λ chunk, Nat.even (length chunk.2) = true)
    (labl_subchunks v index markers).
Proof.
  revert index.
  induction markers as [|m markers IH]; intros index; [constructor|].
  cbn [labl_subchunks]. constructor; [|apply IH].
  cbn [snd]. rewrite length_app, length_le_bytes, length_stored_text.
  destruct (paddedLength_bounds (name m)) as [_ Hp].
  apply Nat.even_spec. apply Nat.Div0.mod_divides in Hp as [c Hc].
  exists (2 + c)%nat. lia.
Qed.

End ListWalkFacts.



(** X27 (wav-generator.js and lib/wav-generator.ts, createListChunk): read
    as a zero-terminated string, the text of a label without a zero
    character comes back whole from the web port, and cut to as many bytes
    as the label has UTF-16 code units from the desktop encoder, which
    loses the end of every label with a character outside ASCII. *)
Theorem labl_text_read_back (kMaxLength : Z) (v : variant)
    (m : CsvParser.marker) (index : nat) :
  Spec.labl_fits kMaxLength index (CsvParser.name m) = true →
  0 ∉ CsvParser.name m →
  ∃ text,
    WavGenerator.labl kMaxLength v m index
    = Ok (Spec.labl_header (index + 1) (CsvParser.name m) ++ text)
    ∧ Spec.c_string text
      = match v with
        | Web => Buffer.utf8 (CsvParser.name m)
        | Desktop =>
            take (length (CsvParser.name m)) (Buffer.utf8 (CsvParser.name m))
        end
    ∧ (v = Desktop → Exists (λ c, 128 ≤ c) (CsvParser.name m) →
       (length (Spec.c_string text) < Buffer.byteLength (CsvParser.name m))%nat).
Proof.
  intros Hfit H0. eexists. split; [by rewrite labl_exact, Hfit|].
  fold (Spec.stored_text v (CsvParser.name m)).
  rewrite c_string_stored_text by done. split.
  - destruct v; [done|]. cbn [Spec.terminator_index]. apply firstn_all.
  - intros -> Hx. cbn [Spec.terminator_index].
    apply utf8_facts in Hx. rewrite length_take. 
    unfold Buffer.byteLength in *. lia.
Qed.

Lemma labl_text_read_back_witness :
  ∃ text,
    WavGenerator.labl 4294967296 Desktop
      (CsvParser.Marker (Fin 0) Spec.swedish_label) 0
    = Ok (Spec.labl_header (0 + 1) Spec.swedish_label ++ text)
    ∧ Spec.c_string text
      = take (length Spec.swedish_label) (Buffer.utf8 Spec.swedish_label)
    ∧ (Desktop = Desktop → Exists (λ c, 128 ≤ c) Spec.swedish_label →
       (length (Spec.c_string text) < Buffer.byteLength Spec.swedish_label)%nat).
Proof.
  apply (labl_text_read_back 4294967296 Desktop
           (CsvParser.Marker (Fin 0) Spec.swedish_label) 0);
    [by vm_compute | by_decide].
Defined.

(** X28 (wav-generator.js, generateWavWithMarkers): every chunk of the file
    and every [labl] sub-chunk has a payload of even length, so that no pad
    byte is missing anywhere, and the file has an even length. *)
Theorem chunks_word_aligned (kMaxLength : Z) (v : variant) (clk : clock)
    (markers : list CsvParser.marker) :
  Spec.encodable kMaxLength v markers = true →
  ∃ bytes,
    WavGenerator.generateWavWithMarkers kMaxLength v clk markers = Ok bytes
    ∧ Nat.even (length bytes) = true
    ∧ Forall (λ chunk, Nat.even (length chunk.2) = true) (Spec.chunks_of bytes)
    ∧ Forall (λ chunk, Nat.even (length chunk.2) = true)
        (Spec.labl_subchunks v 0 markers).
Proof.
  intros E.
  destruct (encodable_output kMaxLength v clk markers E)
    as (bytes & Hb & _ & _ & _ & Hd & _).
  exists bytes. split; [done|].
  apply generateWavWithMarkers_Ok in Hb as (-> & Hsize & _ & _).
  assert (Ldata : Nat.even (length (Spec.data_payload markers)) = true).
  { unfold Spec.data_payload. rewrite length_replicate.
    apply Nat.even_spec. unfold Spec.data_size in *.
    destruct (Spec.duration_seconds markers) as [d|]; [|lia].
    exists (Z.to_nat (d * 88200)). lia. }
  assert (Lcue : Nat.even (length (Spec.cue_payload markers)) = true).
  { rewrite length_cue_payload. apply Nat.even_spec.
    exists (2 + length markers * 12)%nat. lia. }
  pose proof (length_list_payload_even v markers) as Llist.
  assert (Lbext : Nat.even (length (Spec.bext_payload v clk)) = true)
    by (by rewrite length_bext_payload).
  split; [|split].
  - rewrite length_wav_file. unfold Spec.file_size.
    rewrite Nat.even_spec in Ldata, Lcue, Llist, Lbext |- *.
    destruct Ldata as [a ->], Lcue as [b ->], Llist as [c ->],
      Lbext as [d ->].
    change (length Spec.fmt_payload) with 16%nat.
    exists (34 + a + b + c + d)%nat. lia.
  - rewrite chunks_of_wav_file by done.
    repeat (constructor; [done|]). constructor.
  - apply labl_subchunks_even.
Qed.

Lemma chunks_word_aligned_witness :
  ∃ bytes,
    WavGenerator.generateWavWithMarkers 4294967296 Desktop
      (Clock 1700000000000 2025 10 3 9 5 7) Spec.scenario_markers = Ok bytes
    ∧ Nat.even (length bytes) = true
    ∧ Forall (λ chunk, Nat.even (length chunk.2) = true) (Spec.chunks_of bytes)
    ∧ Forall (λ chunk, Nat.even (length chunk.2) = true)
        (Spec.labl_subchunks Desktop 0 Spec.scenario_markers).
Proof. apply chunks_word_aligned. by vm_compute. Defined.

(** ** The pipeline *)

(** X29 (app/api/generate-wav/route.ts, POST): the web route answers with
    status 200 and a file, or with status 400 or 500 and none; every file
    it returns holds at least one cue point. *)
Theorem POST_reply (kMaxLength : Z) (clk : clock)
    (JSON_parse : jsstring → option (list jsstring))
    (file : option jsstring) (frameRate : number)
    (timeColumn selectedFieldsJson : option jsstring) :
  let r := Handlers.POST kMaxLength clk JSON_parse file frameRate timeColumn
             selectedFieldsJson in
  Handlers.status r ∈ [200; 400; 500]
  ∧ (Handlers.success r = true ↔ Handlers.status r = 200)
  ∧ (is_Some (Handlers.wav r) ↔ Handlers.status r = 200)
  ∧ ∀ bytes, Handlers.wav r = Some bytes →
      ∃ cue n, Spec.find_chunk (js "cue ") bytes = Some cue
               ∧ Buffer.readUInt32LE 0 cue = Some n ∧ (0 < n)%Z.
Proof.
  assert (F : ∀ st m, st = 400 ∨ st = 500 →
    let r := Handlers.failure st m in
    Handlers.status r ∈ [200; 400; 500]
    ∧ (Handlers.success r = true ↔ Handlers.status r = 200)
    ∧ (is_Some (Handlers.wav r) ↔ Handlers.status r = 200)
    ∧ ∀ bytes, Handlers.wav r = Some bytes →
        ∃ cue n, Spec.find_chunk (js "cue ") bytes = Some cue
                 ∧ Buffer.readUInt32LE 0 cue = Some n ∧ (0 < n)%Z).
  { intros st m Hst. cbn. split; [|split; [|split]].
    - rewrite !elem_of_cons. destruct Hst as [-> | ->]; auto.
    - split; [done|]. by destruct Hst as [-> | ->].
    - split; [by intros [? [=]]|]. by destruct Hst as [-> | ->].
    - done. }
  unfold Handlers.POST.
  destruct file as [csvContent|], timeColumn as [tc|],
    selectedFieldsJson as [json|]; try (apply F; by left).
  destruct (negb (JSString.truthy tc) || negb (JSString.truthy json));
    [apply F; by left|].
  destruct (JSON_parse json) as [selectedFields|]; [|apply F; by right].
  destruct (CsvParser.parseCSVWithSelectedFields _ _ _ _) as [markers|];
    [|apply F; by right].
  destruct (Nat.eqb_spec (length markers) 0) as [|Hne]; [apply F; by left|].
  destruct (WavGenerator.generateWavWithMarkers _ _ _ _) as [wavBuffer|] eqn:G;
    [|apply F; by right].
  cbn. split; [by left|]. split; [done|]. split; [by split; eauto|].
  intros bytes [= <-].
  apply generateWavWithMarkers_Ok in G as (-> & Hsize & _ & _).
  destruct (find_chunk_wav_file _ _ _ _ _ Hsize) as (_ & Hcue & _).
  eexists _, (Z.of_nat (length markers)). split; [exact Hcue|].
  split; [|lia]. unfold Spec.cue_payload. apply readUInt32LE_le_bytes.
  unfold Spec.file_size in Hsize. rewrite length_cue_payload in Hsize. lia.
Qed.


